(** * Resilient aggregation and schema reconciliation of the expense-tracker backend

    A shallow embedding of [backend/config/pesadb_fallbacks.py] (the
    aggregate fallbacks and the HAVING evaluator) and of
    [backend/services/database_initializer.py] (the schema initializer),
    with the parts of [backend/services/pesadb_service.py] (the service
    counters, user creation, the spending summary) and of
    [backend/config/pesadb.py] (value escaping, INSERT building) they call.

    Modelling conventions:
    - Python strings are [string]s whose characters are the code points
      0..255 (Latin-1); the character classes of [str.isspace], [str.lower],
      [str.upper] and of the regular expression classes [\w], [\d], [\s]
      follow Python on that range.
    - Python floats are modelled as exact rationals [Q].
    - The remote store is an abstract gateway: [query_db] and [execute_db]
      take the gateway state and answer with rows or a Python exception.
    - Python's [int(str)] and [float(str)] parsers, and the iteration order
      of a Python [set] of strings (hash randomised), are parameters; so
      are [repr(float)] and [json.dumps], and the fresh UUID, password hash
      and clock reading of the default user. *)

From Stdlib Require Import String Ascii List ZArith QArith Bool Lia Permutation Sorted.
Import ListNotations.

Local Open Scope nat_scope.
Local Open Scope string_scope.

(** ** Python string primitives *)
Module PyStr.

Definition code (c : ascii) : nat := nat_of_ascii c.

Definition between (lo hi n : nat) : bool := Nat.leb lo n && Nat.leb n hi.

(** [str.isspace] (and the regex class [\s]) on code points 0..255. *)
Definition is_space (c : ascii) : bool :=
  let n := code c in
  between 9 13 n || between 28 32 n || (Nat.eqb n 133) || (Nat.eqb n 160).

(** [str.isdecimal] (the regex class [\d]) on code points 0..255. *)
Definition is_decimal (c : ascii) : bool := between 48 57 (code c).

Definition is_alpha (c : ascii) : bool :=
  let n := code c in
  between 65 90 n || between 97 122 n || (Nat.eqb n 170) || (Nat.eqb n 181)
  || (Nat.eqb n 186) || between 192 214 n || between 216 246 n
  || between 248 255 n.

(** Characters that are numeric without being decimal: superscripts and
    vulgar fractions. *)
Definition is_numeric_other (c : ascii) : bool :=
  let n := code c in
  (Nat.eqb n 178) || (Nat.eqb n 179) || (Nat.eqb n 185) || between 188 190 n.

(** The regex class [\w]: alphanumeric or underscore. *)
Definition is_word (c : ascii) : bool :=
  is_alpha c || is_decimal c || is_numeric_other c || (Nat.eqb (code c) 95).

Definition lower_char (c : ascii) : ascii :=
  let n := code c in
  if between 65 90 n || (between 192 222 n && negb (Nat.eqb n 215))
  then ascii_of_nat (n + 32) else c.

Fixpoint lower (s : string) : string :=
  match s with
  | EmptyString => EmptyString
  | String c r => String (lower_char c) (lower r)
  end.

(** [str.upper] on one character; the sharp s becomes ["SS"].  The two
    characters whose upper case lies outside Latin-1 are kept. *)
Definition upper_char (c : ascii) : string :=
  let n := code c in
  if between 97 122 n || (between 224 254 n && negb (Nat.eqb n 247))
  then String (ascii_of_nat (n - 32)) EmptyString
  else if Nat.eqb n 223 then "SS" else String c EmptyString.

Fixpoint upper (s : string) : string :=
  match s with
  | EmptyString => EmptyString
  | String c r => upper_char c ++ upper r
  end.

(** [s.startswith(p)] *)
Fixpoint starts_with (p s : string) : bool :=
  match p, s with
  | EmptyString, _ => true
  | String a p', String b s' => Ascii.eqb a b && starts_with p' s'
  | _, _ => false
  end.

(** [p in s] *)
Fixpoint contains (p s : string) : bool :=
  starts_with p s ||
  match s with
  | EmptyString => false
  | String _ s' => contains p s'
  end.

(** The remainder of [s] after the prefix [p]. *)
Fixpoint drop_prefix (p s : string) : string :=
  match p, s with
  | String _ p', String _ s' => drop_prefix p' s'
  | _, _ => s
  end.

Fixpoint lstrip (s : string) : string :=
  match s with
  | String c r => if is_space c then lstrip r else s
  | EmptyString => EmptyString
  end.

Fixpoint rev_str (s : string) (acc : string) : string :=
  match s with
  | EmptyString => acc
  | String c r => rev_str r (String c acc)
  end.

(** [s.strip()] *)
Definition strip (s : string) : string :=
  rev_str (lstrip (rev_str (lstrip s) EmptyString)) EmptyString.

(** [s.split()]: split on runs of whitespace, dropping empty pieces. *)
Fixpoint split_ws_aux (s : string) (cur : string) : list string :=
  match s with
  | EmptyString => if String.eqb cur "" then [] else [rev_str cur ""]
  | String c r =>
      if is_space c then
        (if String.eqb cur "" then [] else [rev_str cur ""]) ++ split_ws_aux r ""
      else split_ws_aux r (String c cur)
  end.

Definition split_ws (s : string) : list string := split_ws_aux s "".

(** [sep.join(l)] *)
Fixpoint join (sep : string) (l : list string) : string :=
  match l with
  | [] => ""
  | [x] => x
  | x :: l' => x ++ sep ++ join sep l'
  end.

(** [s.split(sep)] for a non-empty separator; [cur] is the reversed
    current piece and [fuel] bounds the scan. *)
Fixpoint split_on_aux (fuel : nat) (sep s cur : string) : list string :=
  match fuel with
  | O => [rev_str cur "" ++ s]
  | S fuel' =>
      match s with
      | EmptyString => [rev_str cur ""]
      | String c r =>
          if starts_with sep s then
            rev_str cur "" :: split_on_aux fuel' sep (drop_prefix sep s) ""
          else split_on_aux fuel' sep r (String c cur)
      end
  end.

Definition split_on (sep s : string) : list string :=
  split_on_aux (S (String.length s)) sep s "".

(** [s.replace(old, new)] for a non-empty [old]. *)
Definition replace (old new s : string) : string :=
  join new (split_on old s).

End PyStr.

Import PyStr.

(** ** Python values, rows and exceptions *)

Local Set Warnings "-register-all".

(** Values of a gateway row: JSON scalars, and objects (Python dicts). *)
Inductive value : Type :=
| VNone
| VBool (b : bool)
| VInt (z : Z)
| VFloat (q : Q)
| VStr (s : string)
| VDict (d : list (string * value)).

(** A row-map ([Dict[str, Any]]); the first binding of a key is its value. *)
Definition row := list (string * value).

(** A Python exception: its class name and its [str(e)]. *)
Record py_exc := PyExc { exc_type : string; exc_str : string }.

Inductive outcome (A : Type) : Type :=
| Ok (a : A)
| Raise (e : py_exc).
Arguments Ok {A} a.
Arguments Raise {A} e.

Definition obind {A B} (o : outcome A) (f : A -> outcome B) : outcome B :=
  match o with Ok a => f a | Raise e => Raise e end.

(** [row.get(k)] *)
Fixpoint get (r : row) (k : string) : option value :=
  match r with
  | [] => None
  | (k', v) :: r' => if String.eqb k' k then Some v else get r' k
  end.

(** [row.get(k, d)] *)
Definition get_or (r : row) (k : string) (d : value) : value :=
  match get r k with Some v => v | None => d end.

(** [d[k] = v]: overwrite in place, or append a new key. *)
Fixpoint dict_set (k : string) (v : value) (r : row) : row :=
  match r with
  | [] => [(k, v)]
  | (k', v') :: r' =>
      if String.eqb k' k then (k', v) :: r' else (k', v') :: dict_set k v r'
  end.

(** [row.values()]: the value of each key, in insertion order. *)
Fixpoint dict_values_aux (seen : list string) (r : row) : list value :=
  match r with
  | [] => []
  | (k, v) :: r' =>
      if existsb (String.eqb k) seen then dict_values_aux seen r'
      else v :: dict_values_aux (k :: seen) r'
  end.

Definition dict_values (r : row) : list value := dict_values_aux [] r.

(** Python truthiness. *)
Definition truthy (v : value) : bool :=
  match v with
  | VNone => false
  | VBool b => b
  | VInt z => negb (Z.eqb z 0)
  | VFloat q => negb (Qeq_bool q 0)
  | VStr s => negb (String.eqb s "")
  | VDict d => match d with [] => false | _ => true end
  end.

(** [a or b] *)
Definition py_or (a b : value) : value := if truthy a then a else b.

Definition is_none (v : value) : bool :=
  match v with VNone => true | _ => false end.

Definition is_dict (v : value) : bool :=
  match v with VDict _ => true | _ => false end.

Definition type_name (v : value) : string :=
  match v with
  | VNone => "NoneType" | VBool _ => "bool" | VInt _ => "int"
  | VFloat _ => "float" | VStr _ => "str" | VDict _ => "dict"
  end.

(** [isinstance(v, (int, float))] (a bool is an int). *)
Definition num_of (v : value) : option Q :=
  match v with
  | VBool b => Some (if b then 1 else 0)%Q
  | VInt z => Some (inject_Z z)
  | VFloat q => Some q
  | _ => None
  end.

Definition is_numeric (v : value) : bool :=
  match num_of v with Some _ => true | None => false end.

Definition py_repr_str (s : string) : string := "'" ++ s ++ "'".

(** Python [==] on hashable values: numbers compare by value across
    bool, int and float. *)
Definition py_eq (a b : value) : bool :=
  match num_of a, num_of b with
  | Some x, Some y => Qeq_bool x y
  | _, _ =>
      match a, b with
      | VNone, VNone => true
      | VStr x, VStr y => String.eqb x y
      | _, _ => false
      end
  end.

Definition is_hashable (v : value) : bool := negb (is_dict v).

(** The value of a decimal literal matched by [\d+(?:\.\d+)?]. *)
Fixpoint digits_value (s : string) (acc : Z) : Z :=
  match s with
  | EmptyString => acc
  | String c r => digits_value r (acc * 10 + Z.of_nat (code c - 48))
  end.

Definition decimal_q (int_part frac_part : string) : Q :=
  (inject_Z (digits_value int_part 0)
   + inject_Z (digits_value frac_part 0)
     / inject_Z (10 ^ Z.of_nat (String.length frac_part)))%Q.

(** ** The runtime: gateway, conversions, and the effect monad *)
Section Runtime.

(** The gateway's state (the remote store and the connection). *)
Context {St : Type}.

(** [query_db(sql)]: rows, or a raised exception. *)
Variable query_db : St -> string -> outcome (list row) * St.

(** [execute_db(sql)]. *)
Variable execute_db : St -> string -> outcome unit * St.

(** Python's [int(s)] and [float(s)] on strings ([None]: ValueError). *)
Variable py_int_of_str : string -> option Z.
Variable py_float_of_str : string -> option Q.

(** Iteration order of a Python [set] of strings built by inserting the
    given distinct strings. *)
Variable set_order : list string -> list string.

(** The world threaded through the async calls: the gateway state and the
    log of every statement passed to [execute_db], in order. *)
Record world := World { gw : St; exec_log : list string }.

Definition M (A : Type) : Type := world -> outcome A * world.

Definition ret {A} (a : A) : M A := fun w => (Ok a, w).

Definition raise {A} (e : py_exc) : M A := fun w => (Raise e, w).

Definition bind {A B} (m : M A) (f : A -> M B) : M B :=
  fun w => match m w with
           | (Ok a, w') => f a w'
           | (Raise e, w') => (Raise e, w')
           end.

(** [try: m except Exception as e: h(e)] *)
Definition try_except {A} (m : M A) (h : py_exc -> M A) : M A :=
  fun w => match m w with
           | (Ok a, w') => (Ok a, w')
           | (Raise e, w') => h e w'
           end.

Definition lift {A} (o : outcome A) : M A := fun w => (o, w).

Definition query (sql : string) : M (list row) :=
  fun w => let (o, s') := query_db (gw w) sql in (o, World s' (exec_log w)).

Definition execute (sql : string) : M unit :=
  fun w => let (o, s') := execute_db (gw w) sql in
           (o, World s' (app (exec_log w) [sql])).

Local Notation "x <- m ;; k" := (bind m (fun x => k))
  (at level 61, m at next level, right associativity).
Local Notation "m ;;; k" := (bind m (fun _ => k))
  (at level 61, right associativity).

(** *** Python conversions *)

(** [int(v)] *)
Definition py_int (v : value) : outcome Z :=
  match v with
  | VBool b => Ok (if b then 1 else 0)%Z
  | VInt z => Ok z
  | VFloat q => Ok (Z.quot (Qnum q) (Zpos (Qden q)))
  | VStr s =>
      match py_int_of_str s with
      | Some z => Ok z
      | None => Raise (PyExc "ValueError"
                  ("invalid literal for int() with base 10: " ++ py_repr_str s))
      end
  | _ => Raise (PyExc "TypeError"
      ("int() argument must be a string, a bytes-like object or a real number, not "
       ++ py_repr_str (type_name v)))
  end.

(** [float(v)] *)
Definition py_float (v : value) : outcome Q :=
  match v with
  | VBool b => Ok (if b then 1 else 0)%Q
  | VInt z => Ok (inject_Z z)
  | VFloat q => Ok q
  | VStr s =>
      match py_float_of_str s with
      | Some q => Ok q
      | None => Raise (PyExc "ValueError"
                  ("could not convert string to float: " ++ py_repr_str s))
      end
  | _ => Raise (PyExc "TypeError"
      ("float() argument must be a string or a real number, not "
       ++ py_repr_str (type_name v)))
  end.

(** Python [sum] of floats: the integer [0] when there are none. *)
Definition py_sum_floats (qs : list Q) : value :=
  match qs with
  | [] => VInt 0
  | _ => VFloat (fold_left Qplus qs 0%Q)
  end.

(** [[float(v) for v in vs]]: the first failing conversion raises. *)
Fixpoint floats_of (vs : list value) : outcome (list Q) :=
  match vs with
  | [] => Ok []
  | v :: vs' =>
      obind (py_float v) (fun q => obind (floats_of vs') (fun qs => Ok (q :: qs)))
  end.

(** The non-null values of [column]: [row.get(column) is not None]. *)
Definition column_values (column : string) (rows : list row) : list value :=
  flat_map (fun r => match get r column with
                     | Some v => if is_none v then [] else [v]
                     | None => []
                     end) rows.

(** ** count_rows_safe *)

Definition where_clause (where_ : string) : string :=
  if String.eqb where_ "" then "" else "WHERE " ++ where_.

Definition count_native_sql (table where_ : string) : string :=
  strip ("SELECT COUNT(*) as count FROM " ++ table ++ " " ++ where_clause where_).

Definition count_parse_failed : py_exc :=
  PyExc "Exception" "COUNT result parsing failed".

(** The candidate aliases of the first result row, then its first
    numeric value. *)
Definition parse_count_row (r : row) : outcome Z :=
  match get r "count" with
  | Some v => py_int v
  | None =>
      match get r "COUNT(*)" with
      | Some v => py_int v
      | None =>
          match find is_numeric (dict_values r) with
          | Some v => py_int v
          | None => Raise count_parse_failed
          end
      end
  end.

(** STEP 1 of [count_rows_safe]: the body of its [try]. *)
Definition count_native (table where_ : string) : M Z :=
  result <- query (count_native_sql table where_) ;;
  match result with
  | r :: _ => lift (parse_count_row r)
  | [] => raise count_parse_failed
  end.

(** [is_count_error], on the lowercased error text. *)
Definition is_count_error (error_msg : string) : bool :=
  (contains "expected identifier near" error_msg && contains "count" error_msg)
  || (contains "count" error_msg && contains "syntax" error_msg).

Definition count_fetch_sql (table where_ : string) : string :=
  strip ("SELECT * FROM " ++ table ++ " " ++ where_clause where_).

Definition count_fetch_all_sql (table : string) : string :=
  strip ("SELECT * FROM " ++ table).

(** STEP 2: the memory-based count, with its last-resort unfiltered fetch. *)
Definition count_fallback (table where_ : string) : M Z :=
  try_except
    (result <- query (count_fetch_sql table where_) ;;
     ret (Z.of_nat (length result)))
    (fun _ =>
       try_except
         (all_rows <- query (count_fetch_all_sql table) ;;
          ret (Z.of_nat (length all_rows)))
         (fun _ => ret 0%Z)).

Definition count_rows_safe (table where_ : string) : M Z :=
  try_except (count_native table where_)
    (fun e => if is_count_error (lower (exc_str e))
              then count_fallback table where_
              else raise e).

(** ** sum_safe *)

Definition sum_native_sql (table column where_ : string) : string :=
  strip ("SELECT SUM(" ++ column ++ ") as total FROM " ++ table ++ " "
         ++ where_clause where_).

Definition sum_native (table column where_ : string) : M value :=
  result <- query (sum_native_sql table column where_) ;;
  match result with
  | r :: _ =>
      let total := py_or (get_or r "total" VNone)
                     (py_or (get_or r ("SUM(" ++ column ++ ")") VNone) (VInt 0)) in
      q <- lift (py_float total) ;;
      ret (VFloat q)
  | [] => ret (VFloat 0)
  end.

(** The fallback trigger of [sum_safe] and [avg_safe] for function [fn]. *)
Definition is_fn_error (fn error_msg : string) : bool :=
  contains fn error_msg
  && (contains "syntax" error_msg || contains "expected identifier" error_msg).

Definition column_fetch_sql (table column where_ : string) : string :=
  strip ("SELECT " ++ column ++ " FROM " ++ table ++ " " ++ where_clause where_).

Definition sum_fallback (table column where_ : string) : M value :=
  result <- query (column_fetch_sql table column where_) ;;
  match result with
  | [] => ret (VFloat 0)
  | _ => qs <- lift (floats_of (column_values column result)) ;;
         ret (py_sum_floats qs)
  end.

Definition sum_safe (table column where_ : string) : M value :=
  try_except (sum_native table column where_)
    (fun e => if is_fn_error "sum" (lower (exc_str e))
              then sum_fallback table column where_
              else raise e).

(** ** avg_safe *)

Definition avg_native_sql (table column where_ : string) : string :=
  strip ("SELECT AVG(" ++ column ++ ") as average FROM " ++ table ++ " "
         ++ where_clause where_).

Definition avg_native (table column where_ : string) : M (option Q) :=
  result <- query (avg_native_sql table column where_) ;;
  match result with
  | r :: _ =>
      let avg := py_or (get_or r "average" VNone)
                   (get_or r ("AVG(" ++ column ++ ")") VNone) in
      if is_none avg then ret None
      else q <- lift (py_float avg) ;; ret (Some q)
  | [] => ret None
  end.

Definition avg_fallback (table column where_ : string) : M (option Q) :=
  result <- query (column_fetch_sql table column where_) ;;
  match result with
  | [] => ret None
  | _ => values <- lift (floats_of (column_values column result)) ;;
         match values with
         | [] => ret None
         | _ => ret (Some (fold_left Qplus values 0
                           / inject_Z (Z.of_nat (length values)))%Q)
         end
  end.

Definition avg_safe (table column where_ : string) : M (option Q) :=
  try_except (avg_native table column where_)
    (fun e => if is_fn_error "avg" (lower (exc_str e))
              then avg_fallback table column where_
              else raise e).

(** ** _calculate_aggregate *)

Definition Qltb (x y : Q) : bool := negb (Qle_bool y x).

(** Python [<] (or [>] when [gt]) between two values. *)
Definition str_ltb (a b : string) : bool :=
  match String.compare a b with Lt => true | _ => false end.

Definition py_compare (gt : bool) (a b : value) : outcome bool :=
  match num_of a, num_of b, a, b with
  | Some x, Some y, _, _ => Ok (if gt then Qltb y x else Qltb x y)
  | _, _, VStr x, VStr y => Ok (if gt then str_ltb y x else str_ltb x y)
  | _, _, _, _ =>
      Raise (PyExc "TypeError"
        ((if gt then "'>'" else "'<'") ++ " not supported between instances of "
         ++ py_repr_str (type_name a) ++ " and " ++ py_repr_str (type_name b)))
  end.

(** [min(values)] / [max(values)]: the first extreme element is kept. *)
Fixpoint py_extreme (gt : bool) (cur : value) (vs : list value) : outcome value :=
  match vs with
  | [] => Ok cur
  | v :: vs' =>
      obind (py_compare gt v cur)
        (fun b => py_extreme gt (if b then v else cur) vs')
  end.

(** [float(v) if not isinstance(v, dict) else 0]; [None] for the int 0. *)
Fixpoint sum_terms (vs : list value) : outcome (list Q) :=
  match vs with
  | [] => Ok []
  | v :: vs' =>
      if is_dict v then sum_terms vs'
      else obind (py_float v) (fun q => obind (sum_terms vs') (fun qs => Ok (q :: qs)))
  end.

Definition calculate_aggregate (func col : string) (rows : list row)
  : outcome value :=
  let F := upper func in
  if String.eqb F "COUNT" then
    if String.eqb col "*" then Ok (VInt (Z.of_nat (length rows)))
    else Ok (VInt (Z.of_nat (length (column_values col rows))))
  else
    let values := if String.eqb col "*" then map VDict rows
                  else column_values col rows in
    match values with
    | [] => Ok VNone
    | v0 :: vs =>
        if String.eqb F "SUM" then
          obind (sum_terms values) (fun qs => Ok (py_sum_floats qs))
        else if String.eqb F "AVG" then
          obind (sum_terms values) (fun qs =>
            match qs with
            | [] => Ok VNone
            | _ => Ok (VFloat (fold_left Qplus qs 0 / inject_Z (Z.of_nat (length qs)))%Q)
            end)
        else if String.eqb F "MIN" then py_extreme false v0 vs
        else if String.eqb F "MAX" then py_extreme true v0 vs
        else Raise (PyExc "ValueError" ("Unsupported aggregate function: " ++ F))
    end.

(** ** _evaluate_having *)

Fixpoint span (p : ascii -> bool) (s : string) : string * string :=
  match s with
  | String c r => if p c then let (a, b) := span p r in (String c a, b)
                  else (EmptyString, s)
  | EmptyString => (EmptyString, EmptyString)
  end.

Definition is_op_char (c : ascii) : bool :=
  let n := code c in
  (Nat.eqb n 62) || (Nat.eqb n 60) || (Nat.eqb n 61) || (Nat.eqb n 33).

(** [re.match(r'(\w+)\s*([><=!]+)\s*(\d+(?:\.\d+)?)', s)]: anchored at the
    start only.  The classes of consecutive items are disjoint, so the
    greedy match is the only one.  Result: the three groups, the number
    split into its integer and fractional digits. *)
Definition match_having (s : string) : option (string * string * (string * string)) :=
  let (col, r1) := span is_word s in
  let (op, r2) := span is_op_char (snd (span is_space r1)) in
  let (int_part, r3) := span is_decimal (snd (span is_space r2)) in
  if String.eqb col "" || String.eqb op "" || String.eqb int_part "" then None
  else
    let frac :=
      match r3 with
      | String c r4 =>
          if Ascii.eqb c "."%char then fst (span is_decimal r4) else ""
      | EmptyString => ""
      end in
    Some (col, op, (int_part, frac)).

Definition evaluate_having (having : string) (r : row) : outcome bool :=
  match match_having (strip having) with
  | None => Ok true
  | Some (col, op, (ip, fp)) =>
      let col_val := get_or r col (VInt 0) in
      let val := decimal_q ip fp in
      let body :=
        obind (if is_none col_val then Ok 0%Q else py_float col_val) (fun cv =>
          Ok (if String.eqb op ">" then Qltb val cv
              else if String.eqb op ">=" then Qle_bool val cv
              else if String.eqb op "<" then Qltb cv val
              else if String.eqb op "<=" then Qle_bool cv val
              else if String.eqb op "=" || String.eqb op "==" then Qeq_bool cv val
              else if String.eqb op "!=" || String.eqb op "<>" then negb (Qeq_bool cv val)
              else true)) in
      match body with
      | Ok b => Ok b
      | Raise _ => Ok true
      end
  end.

(** ** aggregate_safe *)

(** The generated alias [f"{func.lower()}_{col.replace('*', 'all')}"]. *)
Definition alias (func col : string) : string :=
  lower func ++ "_" ++ replace "*" "all" col.

(** [if group_by:] for an [Optional[str]]. *)
Definition active_group (group_by : option string) : option string :=
  match group_by with
  | Some g => if String.eqb g "" then None else Some g
  | None => None
  end.

(** The native statement.  The source's multi-line f-string is normalised
    by [" ".join(sql.split())]; joining its pieces with single spaces gives
    the same normal form. *)
Definition aggregate_native_sql (table : string) (aggregates : list (string * string))
    (where_ : string) (group_by : option string) (having order_by : string) : string :=
  let agg_select := map (fun '(f, c) => f ++ "(" ++ c ++ ") as " ++ alias f c) aggregates in
  let select_clause :=
    match active_group group_by with
    | Some g => g ++ ", " ++ join ", " agg_select
    | None => join ", " agg_select
    end in
  let group_clause :=
    match active_group group_by with Some g => "GROUP BY " ++ g | None => "" end in
  let having_clause := if String.eqb having "" then "" else "HAVING " ++ having in
  let order_clause := if String.eqb order_by "" then "" else "ORDER BY " ++ order_by in
  join " " (split_ws ("SELECT " ++ select_clause ++ " FROM " ++ table ++ " "
                      ++ where_clause where_ ++ " " ++ group_clause ++ " "
                      ++ having_clause ++ " " ++ order_clause)).

(** [is_aggregate_error], on the lowercased error text. *)
Definition is_aggregate_error (aggregates : list (string * string)) (error_msg : string)
  : bool :=
  existsb (fun '(f, _) => contains (lower f) error_msg) aggregates
  && (contains "syntax" error_msg || contains "expected identifier" error_msg).

Definition set_add (x : string) (l : list string) : list string :=
  if existsb (String.eqb x) l then l else app l [x].

(** The distinct elements of [columns_needed], in insertion order. *)
Definition columns_needed (aggregates : list (string * string))
    (group_by : option string) : list string :=
  let cols := fold_left (fun acc '(_, col) =>
                if String.eqb col "*" then acc else set_add col acc) aggregates [] in
  match active_group group_by with
  | Some g => set_add g cols
  | None => cols
  end.

Definition aggregate_fetch_sql (table : string) (aggregates : list (string * string))
    (where_ : string) (group_by : option string) : string :=
  let select_cols :=
    match columns_needed aggregates group_by with
    | [] => "*"
    | cols => join ", " (set_order cols)
    end in
  strip ("SELECT " ++ select_cols ++ " FROM " ++ table ++ " " ++ where_clause where_).

(** [groups[group_key].append(row)] on a [defaultdict(list)]: the key that
    is [==] to [k] if one exists, else a new key at the end. *)
Fixpoint group_add (k : value) (r : row) (groups : list (value * list row))
  : list (value * list row) :=
  match groups with
  | [] => [(k, [r])]
  | (k', rs) :: g =>
      if py_eq k' k then (k', app rs [r]) :: g else (k', rs) :: group_add k r g
  end.

(** The partition loop: [group_key = row[group_by]] raises KeyError on a
    missing column, and hashing a dict raises TypeError. *)
Fixpoint group_rows (gb : string) (rows : list row) (acc : list (value * list row))
  : outcome (list (value * list row)) :=
  match rows with
  | [] => Ok acc
  | r :: rs =>
      match get r gb with
      | None => Raise (PyExc "KeyError" (py_repr_str gb))
      | Some k =>
          if is_hashable k then group_rows gb rs (group_add k r acc)
          else Raise (PyExc "TypeError" ("unhashable type: " ++ py_repr_str (type_name k)))
      end
  end.

(** [result_row[alias] = _calculate_aggregate(func, col, rows)] for each
    requested aggregate, in order. *)
Fixpoint fill_aggs (aggregates : list (string * string)) (rows : list row) (r : row)
  : outcome row :=
  match aggregates with
  | [] => Ok r
  | (f, c) :: a' =>
      obind (calculate_aggregate f c rows)
        (fun v => fill_aggs a' rows (dict_set (alias f c) v r))
  end.

(** One result row per group, in group order, dropping the groups the
    HAVING filter rejects. *)
Fixpoint group_results (gb : string) (aggregates : list (string * string))
    (having : string) (groups : list (value * list row)) : outcome (list row) :=
  match groups with
  | [] => Ok []
  | (k, rs) :: g =>
      obind (fill_aggs aggregates rs [(gb, k)]) (fun r =>
        obind (if String.eqb having "" then Ok true else evaluate_having having r)
          (fun keep =>
             obind (group_results gb aggregates having g)
               (fun rest => Ok (if keep then r :: rest else rest))))
  end.

Definition key_ltb (a b : value) : bool :=
  match num_of a, num_of b, a, b with
  | Some x, Some y, _, _ => Qltb x y
  | _, _, VStr x, VStr y => str_ltb x y
  | _, _, _, _ => false
  end.

Fixpoint insert_by (before : value -> value -> bool) (x : value * row)
    (l : list (value * row)) : list (value * row) :=
  match l with
  | [] => [x]
  | y :: l' => if before (fst x) (fst y) then x :: l else y :: insert_by before x l'
  end.

(** A stable insertion sort. *)
Definition stable_sort (before : value -> value -> bool) (l : list (value * row))
  : list (value * row) :=
  fold_left (fun acc x => insert_by before x acc) l [].

Definition is_str (v : value) : bool :=
  match v with VStr _ => true | _ => false end.

(** [results.sort(key=lambda x: x.get(sort_col, 0), reverse=reverse)].
    Python's sort is stable, also with [reverse=True].  With two or more
    rows, every correct comparison sort compares keys of two different
    classes (or a key that is neither a number nor a string) unless all
    keys are numbers or all are strings, and such a comparison raises
    TypeError. *)
Definition sort_results (sort_col : string) (rev : bool) (rs : list row)
  : outcome (list row) :=
  let keyed := map (fun r => (get_or r sort_col (VInt 0), r)) rs in
  match rs with
  | [] | [_] => Ok rs
  | _ =>
      if forallb (fun p => is_numeric (fst p)) keyed
         || forallb (fun p => is_str (fst p)) keyed
      then Ok (map snd (stable_sort (fun a b => if rev then key_ltb b a else key_ltb a b)
                          keyed))
      else Raise (PyExc "TypeError" "'<' not supported between instances")
  end.

(** The in-memory aggregation of the [except] branch, after the fetch. *)
Definition aggregate_rows (aggregates : list (string * string))
    (group_by : option string) (having order_by : string) (rows : list row)
  : outcome (list row) :=
  match rows with
  | [] => Ok []
  | _ =>
      match active_group group_by with
      | Some gb =>
          obind (group_rows gb rows []) (fun groups =>
          obind (group_results gb aggregates having groups) (fun results =>
            if String.eqb order_by "" then Ok results
            else match split_ws order_by with
                 | [] => Raise (PyExc "IndexError" "list index out of range")
                 | sort_col :: _ =>
                     sort_results sort_col (contains "desc" (lower order_by)) results
                 end))
      | None => obind (fill_aggs aggregates rows []) (fun r => Ok [r])
      end
  end.

Definition aggregate_fallback (table : string) (aggregates : list (string * string))
    (where_ : string) (group_by : option string) (having order_by : string)
  : M (list row) :=
  rows <- query (aggregate_fetch_sql table aggregates where_ group_by) ;;
  lift (aggregate_rows aggregates group_by having order_by rows).

Definition aggregate_safe (table : string) (aggregates : list (string * string))
    (where_ : string) (group_by : option string) (having order_by : string)
  : M (list row) :=
  try_except
    (query (aggregate_native_sql table aggregates where_ group_by having order_by))
    (fun e => if is_aggregate_error aggregates (lower (exc_str e))
              then aggregate_fallback table aggregates where_ group_by having order_by
              else raise e).

(** ** DatabaseInitializer *)

Definition nl : string := String (ascii_of_nat 10) EmptyString.

Definition any_phrase (phrases : list string) (s : string) : bool :=
  existsb (fun p => contains p s) phrases.

Definition table_probe_sql (table_name : string) : string :=
  "SELECT * FROM " ++ table_name ++ " LIMIT 1".

(** [table_exists]: every failure, recognised as "not found" or not, is
    reported as a missing table. *)
Definition table_exists (table_name : string) : M bool :=
  try_except
    (_ <- query (table_probe_sql table_name) ;; ret true)
    (fun e =>
       if any_phrase ["does not exist"; "no such table"; "table not found";
                      "unknown table"; "tablenotfound"; "not found"]
            (lower (exc_str e))
       then ret false
       else ret false).

Record schema_check := SchemaCheck {
  sc_exists : bool;
  sc_has_correct_schema : bool;
  sc_has_email : bool;
  sc_has_password_hash : bool;
  sc_is_old_schema : bool;
  sc_needs_migration : bool;
  sc_error : option string }.

Definition empty_schema_check : schema_check :=
  SchemaCheck false false false false false false None.

Definition email_probe_sql : string := "SELECT id, email FROM users LIMIT 1".
Definition password_probe_sql : string := "SELECT id, password_hash FROM users LIMIT 1".

(** One column probe: [True] on success; on failure the flag keeps its
    value [False] whether or not the error names the column. *)
Definition column_probe (sql column : string) : M bool :=
  try_except
    (_ <- query sql ;; ret true)
    (fun e => let m := lower (exc_str e) in
              if contains column m && contains "not" m then ret false else ret false).

Definition check_users_table_schema : M schema_check :=
  try_except
    (exists_ <- table_exists "users" ;;
     if negb exists_ then ret empty_schema_check
     else
       has_email <- column_probe email_probe_sql "email" ;;
       has_password_hash <- column_probe password_probe_sql "password_hash" ;;
       let correct := has_email && has_password_hash in
       ret (SchemaCheck true correct has_email has_password_hash (negb correct)
              (exists_ && negb correct) None))
    (fun e => ret (SchemaCheck false false false false false false (Some (exc_str e)))).

Definition users_create_statement : string :=
"CREATE TABLE users (
    id STRING PRIMARY KEY,
    email STRING,
    password_hash STRING,
    name STRING,
    created_at STRING,
    preferences STRING
)".

(** [migrate_users_table]: drop, recreate, re-check. *)
Definition migrate_users_table : M bool :=
  try_except
    (try_except (execute "DROP TABLE users")
       (fun e => let m := lower (exc_str e) in
                 if contains "does not exist" m || contains "not found" m
                 then ret tt else raise e) ;;;
     execute users_create_statement ;;;
     sc <- check_users_table_schema ;;
     ret (sc_has_correct_schema sc))
    (fun _ => ret false).

(** The inline schema, in dependency order. *)
Definition table_statements : list (string * string) := [
  ("users", users_create_statement);
  ("categories",
"CREATE TABLE categories (
    id STRING PRIMARY KEY,
    user_id STRING REFERENCES users(id),
    name STRING,
    icon STRING,
    color STRING,
    keywords STRING,
    is_default BOOL
)");
  ("transactions",
"CREATE TABLE transactions (
    id STRING PRIMARY KEY,
    user_id STRING REFERENCES users(id),
    amount FLOAT,
    type STRING,
    category_id STRING REFERENCES categories(id),
    description STRING,
    date STRING,
    source STRING,
    mpesa_details STRING,
    sms_metadata STRING,
    created_at STRING,
    transaction_group_id STRING,
    transaction_role STRING,
    parent_transaction_id STRING REFERENCES transactions(id)
)");
  ("budgets",
"CREATE TABLE budgets (
    id STRING PRIMARY KEY,
    user_id STRING REFERENCES users(id),
    category_id STRING REFERENCES categories(id),
    amount FLOAT,
    period STRING,
    month INT,
    year INT,
    created_at STRING
)");
  ("sms_import_logs",
"CREATE TABLE sms_import_logs (
    id STRING PRIMARY KEY,
    user_id STRING REFERENCES users(id),
    import_session_id STRING,
    total_messages INT,
    successful_imports INT,
    duplicates_found INT,
    parsing_errors INT,
    transactions_created STRING,
    errors STRING,
    created_at STRING
)");
  ("duplicate_logs",
"CREATE TABLE duplicate_logs (
    id STRING PRIMARY KEY,
    user_id STRING REFERENCES users(id),
    original_transaction_id STRING REFERENCES transactions(id),
    duplicate_transaction_id STRING REFERENCES transactions(id),
    message_hash STRING,
    mpesa_transaction_id STRING,
    reason STRING,
    duplicate_reasons STRING,
    duplicate_confidence FLOAT,
    similarity_score FLOAT,
    detected_at STRING,
    action_taken STRING
)");
  ("status_checks",
"CREATE TABLE status_checks (
    id STRING PRIMARY KEY,
    status STRING,
    timestamp STRING,
    details STRING
)") ].

(** The [required_tables] of [verify_database]. *)
Definition required_tables : list string :=
  ["users"; "categories"; "transactions"; "budgets";
   "sms_import_logs"; "duplicate_logs"; "status_checks"].

(** Counters [(tables_created, tables_skipped, errors)]. *)
Definition counters : Type := nat * nat * list string.

(** The body of the per-table [try] of [create_tables] and
    [create_tables_inline], with its [except] handler. *)
Definition create_table_step (table_name statement : string) (acc : counters)
  : M counters :=
  let '(created, skipped, errors) := acc in
  try_except
    (exists_ <- table_exists table_name ;;
     if exists_ then ret (created, S skipped, errors)
     else
       execute statement ;;;
       exists' <- table_exists table_name ;;
       if exists' then ret (S created, skipped, errors)
       else ret (created, skipped,
                 app errors ["Table '" ++ table_name ++
                   "' creation reported success but verification failed - table does not exist"]))
    (fun e =>
       if any_phrase ["already exists"; "table exists"; "duplicate"; "exist"]
            (lower (exc_str e))
       then ret (created, S skipped, errors)
       else ret (created, skipped,
                 app errors ["Error creating table '" ++ table_name ++ "': " ++ exc_str e])).

Fixpoint create_each (tables : list (string * string)) (acc : counters) : M counters :=
  match tables with
  | [] => ret acc
  | (name, statement) :: rest =>
      acc' <- create_table_step name statement acc ;;
      create_each rest acc'
  end.

Definition create_tables_inline : M counters :=
  create_each table_statements (0, 0, []).

(** [parse_sql_statements]: split on [;], drop [--] comments and blank
    lines, join the remaining lines with spaces, keep statements naming
    an SQL keyword. *)
Definition clean_line (line : string) : string :=
  strip (if contains "--" line then hd "" (split_on "--" line) else line).

Definition parse_sql_statements (sql_content : string) : list string :=
  flat_map (fun stmt =>
    let lines := filter (fun l => negb (String.eqb l ""))
                   (map clean_line (split_on nl stmt)) in
    match lines with
    | [] => []
    | _ =>
        let full_statement := join " " lines in
        if any_phrase ["CREATE"; "INSERT"; "UPDATE"; "DELETE"; "SELECT"; "DROP"; "ALTER"]
             (upper full_statement)
        then [full_statement] else []
    end) (split_on ";" sql_content).

Definition extract_table_name_from_create (statement : string) : string :=
  strip (replace "IF NOT EXISTS" ""
           (replace "CREATE TABLE" "" (hd "" (split_on "(" statement)))).

(** The statements the CREATE loop of [create_tables] does not skip. *)
Definition create_statements (statements : list string) : list string :=
  filter (fun st => negb (starts_with "DROP TABLE" (upper st))
                    && starts_with "CREATE TABLE" (upper st)) statements.

(** Outcome of one INSERT of the seed-data phase: go on, or stop the
    phase (an [UnboundLocalError] on [table_name] in the handler). *)
Inductive insert_step := Continue (errors : list string) | Abort (errors : list string).

Definition insert_handler (e : py_exc) (table_name : option string) (errors : list string)
  : insert_step :=
  match table_name with
  | None => Abort errors
  | Some t =>
      let error_str := lower (exc_str e) in
      if any_phrase ["duplicate"; "already exists"; "unique"] error_str then Continue errors
      else if any_phrase ["foreign key"; "constraint"; "references"; "does not exist"] error_str
      then Continue (app errors ["Foreign key error in " ++ t ++ ": " ++ exc_str e])
      else Continue errors
  end.

(** The INSERT loop; [table_name] is the function-local variable, bound by
    the CREATE loop or a previous INSERT. *)
Fixpoint insert_loop (statements : list string) (table_name : option string)
    (errors : list string) : M (list string) :=
  match statements with
  | [] => ret errors
  | st :: rest =>
      if starts_with "INSERT INTO" (upper st) then
        match split_on "INSERT INTO" st with
        | _ :: after :: _ =>
            let tn := strip (hd "" (split_on "(" after)) in
            step <- try_except (execute st ;;; ret (Continue errors))
                      (fun e => ret (insert_handler e (Some tn) errors)) ;;
            match step with
            | Continue errs => insert_loop rest (Some tn) errs
            | Abort errs => ret errs
            end
        | _ =>
            match insert_handler (PyExc "IndexError" "list index out of range")
                    table_name errors with
            | Continue errs => insert_loop rest table_name errs
            | Abort errs => ret errs
            end
        end
      else insert_loop rest table_name errors
  end.

(** [load_sql_from_file()]: the content of [backend/scripts/init_pesadb.sql],
    or the exception reading it raises. *)
Variable schema_file : outcome string.

Definition create_tables : M counters :=
  match schema_file with
  | Raise _ => create_tables_inline
  | Ok sql_content =>
      let statements := parse_sql_statements sql_content in
      match statements with
      | [] => create_tables_inline
      | _ =>
          let creates := map (fun st => (extract_table_name_from_create st, st))
                           (create_statements statements) in
          acc <- create_each creates (0, 0, []) ;;
          let '(created, skipped, errors) := acc in
          match schema_file with
          | Raise _ => ret (created, skipped, errors)
          | Ok content' =>
              errors' <- insert_loop (parse_sql_statements content')
                           (option_map fst (last (map Some creates) None)) errors ;;
              ret (created, skipped, errors')
          end
      end
  end.

Fixpoint verify_each (tables : list string) (missing : list string) : M (list string) :=
  match tables with
  | [] => ret missing
  | t :: rest =>
      exists_ <- table_exists t ;;
      verify_each rest (if exists_ then missing else app missing [t])
  end.

Definition verify_database : M bool :=
  try_except
    (missing <- verify_each required_tables [] ;;
     match missing with [] => ret true | _ => ret false end)
    (fun _ => ret false).

(** *** seed_default_categories *)

Definition dq : string := String (ascii_of_nat 34) EmptyString.
Definition sq : string := String (ascii_of_nat 39) EmptyString.

(** Text outside Latin-1 (the category icons) is carried as its UTF-8
    bytes; it is only sent to the gateway. *)
Definition utf8_char (cp : N) : string :=
  let b := fun n : N => String (ascii_of_N n) EmptyString in
  if (cp <? 128)%N then b cp
  else if (cp <? 2048)%N then b (192 + cp / 64)%N ++ b (128 + cp mod 64)%N
  else if (cp <? 65536)%N then
    b (224 + cp / 4096)%N ++ b (128 + (cp / 64) mod 64)%N ++ b (128 + cp mod 64)%N
  else b (240 + cp / 262144)%N ++ b (128 + (cp / 4096) mod 64)%N
       ++ b (128 + (cp / 64) mod 64)%N ++ b (128 + cp mod 64)%N.

Definition utf8 (cps : list N) : string := String.concat "" (map utf8_char cps).

Definition keyword_list (ks : list string) : string :=
  "[" ++ join ", " (map (fun k => dq ++ k ++ dq) ks) ++ "]".

Definition default_categories : list (string * string * string * string * string) := [
  ("cat-food", "Food & Dining", utf8 [127828%N], "#FF6B6B",
   keyword_list ["food"; "restaurant"; "dining"; "lunch"; "dinner"; "breakfast"; "nyama"; "choma"]);
  ("cat-transport", "Transport", utf8 [128663%N], "#4ECDC4",
   keyword_list ["taxi"; "bus"; "matatu"; "uber"; "fuel"; "transport"; "travel"]);
  ("cat-shopping", "Shopping", utf8 [128717%N; 65039%N], "#95E1D3",
   keyword_list ["shop"; "store"; "mall"; "clothing"; "electronics"; "supermarket"]);
  ("cat-bills", "Bills & Utilities", utf8 [128241%N], "#F38181",
   keyword_list ["bill"; "electricity"; "water"; "internet"; "phone"; "utility"; "kplc"; "nairobi water"]);
  ("cat-entertainment", "Entertainment", utf8 [127916%N], "#AA96DA",
   keyword_list ["movie"; "cinema"; "game"; "entertainment"; "music"; "showmax"; "netflix"]);
  ("cat-health", "Health & Fitness", utf8 [9877%N; 65039%N], "#FCBAD3",
   keyword_list ["hospital"; "pharmacy"; "doctor"; "medicine"; "gym"; "health"; "clinic"]);
  ("cat-education", "Education", utf8 [128218%N], "#A8D8EA",
   keyword_list ["school"; "books"; "tuition"; "education"; "course"; "university"]);
  ("cat-airtime", "Airtime & Data", utf8 [128222%N], "#FFFFD2",
   keyword_list ["airtime"; "data"; "bundles"; "safaricom"; "airtel"; "telkom"]);
  ("cat-transfers", "Money Transfer", utf8 [128184%N], "#FEC8D8",
   keyword_list ["transfer"; "send money"; "mpesa"; "paybill"; "till"]);
  ("cat-savings", "Savings & Investments", utf8 [128176%N], "#957DAD",
   keyword_list ["savings"; "investment"; "deposit"; "savings account"; "mshwari"; "kcb mpesa"]);
  ("cat-income", "Income", utf8 [128181%N], "#90EE90",
   keyword_list ["salary"; "income"; "payment"; "received"]);
  ("cat-other", "Other", utf8 [128204%N], "#D4A5A5", keyword_list []) ].

Definition indent20 : string := "                    ".

Definition system_user_check_sql : string :=
  "SELECT * FROM users WHERE id = 'system' LIMIT 1".

Definition system_user_sql : string :=
  nl ++ indent20
  ++ "INSERT INTO users (id, email, password_hash, name, created_at, preferences)"
  ++ nl ++ indent20
  ++ "VALUES ('system', 'system@internal', 'SYSTEM_ACCOUNT_NO_LOGIN', 'System Account', '2026-01-16T00:00:00Z', '{"
  ++ dq ++ "is_system" ++ dq ++ ": true}')" ++ nl ++ indent20.

Definition category_insert_sql (cat_id name icon color keywords : string) : string :=
  let safe_name := replace sq (sq ++ sq) name in
  nl ++ indent20
  ++ "INSERT INTO categories (id, user_id, name, icon, color, keywords, is_default)"
  ++ nl ++ indent20
  ++ "VALUES ('" ++ cat_id ++ "', 'system', '" ++ safe_name ++ "', '" ++ icon ++ "', '"
  ++ color ++ "', '" ++ keywords ++ "', TRUE)" ++ nl ++ indent20.

(** Each category is inserted in its own [try]: a failure skips only it. *)
Fixpoint seed_each (cats : list (string * string * string * string * string))
    (seeded_count : nat) : M nat :=
  match cats with
  | [] => ret seeded_count
  | (cat_id, name, icon, color, keywords) :: rest =>
      n <- try_except
             (execute (category_insert_sql cat_id name icon color keywords) ;;;
              ret (S seeded_count))
             (fun _ => ret seeded_count) ;;
      seed_each rest n
  end.

Definition seed_default_categories : M nat :=
  try_except
    (categories_count <- count_rows_safe "categories" "" ;;
     if (categories_count >? 0)%Z then ret 0
     else
       system_ok <- try_except
                      (system_user_check <- query system_user_check_sql ;;
                       match system_user_check with
                       | [] => execute system_user_sql ;;; ret true
                       | _ => ret true
                       end)
                      (fun _ => ret false) ;;
       if negb system_ok then ret 0
       else seed_each default_categories 0)
    (fun _ => ret 0).

(** *** create_default_user

    The body of its [try] (count the users through the service layer,
    hash a password, insert a user) is a parameter; it answers
    [(created, user_id)].  Every exception is turned into
    [created = False]. *)
Variable create_default_user_body : M (bool * option string).

Definition create_default_user : M (bool * option string) :=
  try_except create_default_user_body (fun _ => ret (false, None)).

(** *** initialize_database *)

(** The [result] dictionary. *)
Record report := Report {
  r_success : bool;
  r_database_created : bool;
  r_tables_created : nat;
  r_tables_skipped : nat;
  r_categories_seeded : nat;
  r_user_created : bool;
  r_verified : bool;
  r_migrated : bool;
  r_message : string;
  r_errors : list string;
  r_user_id : option string }.

Definition initial_report : report :=
  Report false false 0 0 0 false false false "" [] None.

Definition add_errors (l : list string) (r : report) : report :=
  let 'Report a b c d e f g h i errs k := r in Report a b c d e f g h i (app errs l) k.
Definition set_message (m : string) (r : report) : report :=
  let 'Report a b c d e f g h _ j k := r in Report a b c d e f g h m j k.
Definition set_database_created (x : bool) (r : report) : report :=
  let 'Report a _ c d e f g h i j k := r in Report a x c d e f g h i j k.
Definition set_migrated (x : bool) (r : report) : report :=
  let 'Report a b c d e f g _ i j k := r in Report a b c d e f g x i j k.
Definition set_tables (created skipped : nat) (r : report) : report :=
  let 'Report a b _ _ e f g h i j k := r in Report a b created skipped e f g h i j k.
Definition set_verified (x : bool) (r : report) : report :=
  let 'Report a b c d e f _ h i j k := r in Report a b c d e f x h i j k.
Definition set_categories_seeded (x : nat) (r : report) : report :=
  let 'Report a b c d _ f g h i j k := r in Report a b c d x f g h i j k.
Definition set_user_created (x : bool) (r : report) : report :=
  let 'Report a b c d e _ g h i j k := r in Report a b c d e x g h i j k.
Definition set_user_id (x : option string) (r : report) : report :=
  let 'Report a b c d e f g h i j _ := r in Report a b c d e f g h i j x.
Definition set_success (x : bool) (r : report) : report :=
  let 'Report _ b c d e f g h i j k := r in Report x b c d e f g h i j k.

(** The outer [except Exception as e] of [initialize_database], seen from
    one awaited step: an exception records its message in the report as
    it stands and ends the call. *)
Definition guard {A} (m : M A) (r : report) (k : A -> M report) : M report :=
  fun w => match m w with
           | (Ok a, w') => k a w'
           | (Raise e, w') =>
               let msg := "Initialization error: " ++ exc_str e in
               (Ok (add_errors [msg] (set_message msg r)), w')
           end.

(** [ensure_database_exists] validates the configuration only. *)
Definition ensure_database_exists : M bool := ret true.

(** Steps 3 and 4, then the success flag. *)
Definition finish_initialization (seed_categories create_default_user_flag : bool)
    (r : report) : M report :=
  guard (if seed_categories then n <- seed_default_categories ;; ret (Some n)
         else ret None) r (fun seeded =>
  let r1 := match seeded with Some n => set_categories_seeded n r | None => r end in
  guard (if create_default_user_flag then u <- create_default_user ;; ret (Some u)
         else ret None) r1 (fun user_result =>
  let r2 := match user_result with
            | Some (created, uid) =>
                let r' := set_user_created created r1 in
                match uid with
                | Some u => if String.eqb u "" then r' else set_user_id (Some u) r'
                | None => r'
                end
            | None => r1
            end in
  ret (set_message "Database initialized successfully" (set_success true r2)))).

Definition initialize_database (seed_categories create_default_user_flag : bool)
  : M report :=
  let r0 := initial_report in
  guard ensure_database_exists r0 (fun db_created =>
  let r1 := set_database_created db_created r0 in
  let r1 := if db_created then r1 else add_errors ["Failed to ensure database exists"] r1 in
  guard check_users_table_schema r1 (fun schema_check =>
  guard (if sc_needs_migration schema_check
         then ok <- migrate_users_table ;; ret (Some ok) else ret None) r1 (fun migration =>
  let r2 := match migration with
            | Some true => set_migrated true r1
            | Some false =>
                add_errors ["Users table migration failed - signup/login will not work"]
                  (set_migrated false r1)
            | None => r1
            end in
  guard create_tables r2 (fun '(tables_created, tables_skipped, table_errors) =>
  let r3 := add_errors table_errors (set_tables tables_created tables_skipped r2) in
  guard verify_database r3 (fun verified =>
  let r4 := set_verified verified r3 in
  if verified then finish_initialization seed_categories create_default_user_flag r4
  else
    let error_msg := "Database verification failed - some tables are missing" in
    let r5 := add_errors [error_msg] r4 in
    if Nat.eqb tables_created 0 then
      guard create_tables_inline r5 (fun '(created', skipped', inline_errors) =>
      let r6 := add_errors inline_errors (set_tables created' skipped' r5) in
      guard verify_database r6 (fun verified' =>
      let r7 := set_verified verified' r6 in
      if verified' then finish_initialization seed_categories create_default_user_flag r7
      else ret (set_message "Database verification failed after fallback attempt" r7)))
    else ret (set_message error_msg r5)))))).

(** ** Vocabulary of the properties *)

(** The input rows whose group column holds a value equal (Python [==])
    to [k]. *)
Definition rows_with (gb : string) (k : value) (rows : list row) : list row :=
  filter (fun r => match get r gb with Some v => py_eq v k | None => false end) rows.

(** The state of the partition loop after the rows [seen]: group keys are
    pairwise unequal, each group holds exactly the rows of [seen] whose
    value equals its key, and every row of [seen] has a group. *)
Record group_inv (gb : string) (seen : list row) (groups : list (value * list row))
  : Prop := {
  gi_distinct : ForallOrdPairs (fun a b => py_eq a b = false) (map fst groups);
  gi_rows : forall k rs, In (k, rs) groups ->
    rs = rows_with gb k seen /\ is_hashable k = true
    /\ exists r, In r seen /\ get r gb = Some k;
  gi_cover : forall r, In r seen ->
    exists v, get r gb = Some v /\ is_hashable v = true
    /\ exists k rs, In (k, rs) groups /\ py_eq k v = true
}.

(** A step that always returns normally, whatever the world. *)
Definition total {A} (m : M A) : Prop :=
  forall w, exists a w', m w = (Ok a, w').

(** A step that only ever adds statements at the end of the log. *)
Definition appends {A} (m : M A) : Prop :=
  forall w o w', m w = (o, w') -> exists l, exec_log w' = app (exec_log w) l.

(** A step whose first executed statement is [x]. *)
Definition executes_first {A} (x : string) (m : M A) : Prop :=
  forall w o w', m w = (o, w') -> exists l, exec_log w' = app (exec_log w) (x :: l).

(** A step that executes nothing. *)
Definition keeps_log {A} (m : M A) : Prop :=
  forall w o w', m w = (o, w') -> exec_log w' = exec_log w.

(** ** The service layer and the SQL builders

    [backend/config/pesadb.py] ([escape_string], [build_insert]) and the
    counting wrappers of [backend/services/pesadb_service.py]. *)

(** Python's [str(n)] for an integer. *)
Fixpoint n_digits (fuel : nat) (n : N) (acc : string) : string :=
  match fuel with
  | O => acc
  | S fuel' =>
      let acc' := String (ascii_of_N (48 + n mod 10)) acc in
      if (n / 10 =? 0)%N then acc' else n_digits fuel' (n / 10) acc'
  end.

Definition py_str_int (z : Z) : string :=
  let n := Z.abs_N z in
  let digits := n_digits (S (N.size_nat n)) n "" in
  if (z <? 0)%Z then "-" ++ digits else digits.

(** The library functions [str(f)] of a float and [json.dumps(d)] of a
    dict. *)
Record py_library := PyLibrary {
  py_float_repr : Q -> string;
  json_dumps : value -> string }.

Variable lib : py_library.

(** [escape_string(value)]; the value type has no [datetime] and no list. *)
Definition escape_string (v : value) : string :=
  match v with
  | VNone => "NULL"
  | VBool b => if b then "TRUE" else "FALSE"
  | VInt z => py_str_int z
  | VFloat q => py_float_repr lib q
  | VDict _ => sq ++ replace sq (sq ++ sq) (json_dumps lib v) ++ sq
  | VStr s => sq ++ replace sq (sq ++ sq) s ++ sq
  end.

(** [build_insert(table, data)] for a dict with distinct keys, in
    insertion order. *)
Definition build_insert (table : string) (data : row) : string :=
  "INSERT INTO " ++ table ++ " (" ++ join ", " (map fst data) ++ ") VALUES ("
  ++ join ", " (map (fun kv => escape_string (snd kv)) data) ++ ")".

(** [is_table_not_found_error(error)] *)
Definition is_table_not_found_error (e : py_exc) : bool :=
  let error_msg := lower (exc_str e) in
  (contains "table" error_msg && contains "does not exist" error_msg)
  || contains "tablenotfound" error_msg || contains "no such table" error_msg.

(** The shared body of [get_user_count], [count_categories],
    [count_transactions] and [count_duplicate_logs]. *)
Definition count_or_zero (table where_ : string) : M Z :=
  try_except (count_rows_safe table where_)
    (fun e => if is_table_not_found_error e then ret 0%Z else raise e).

Definition get_user_count : M Z := count_or_zero "users" "".

Definition count_categories : M Z := count_or_zero "categories" "".

Definition count_transactions (user_id : string) (category_id : option string) : M Z :=
  let where_ := "user_id = '" ++ user_id ++ "'" in
  let where_ := match category_id with
                | Some c => if String.eqb c "" then where_
                            else where_ ++ " AND category_id = '" ++ c ++ "'"
                | None => where_
                end in
  count_or_zero "transactions" where_.

Definition count_duplicate_logs (user_id : string) : M Z :=
  count_or_zero "duplicate_logs" ("user_id = '" ++ user_id ++ "'").

(** The [where] of [get_category_spending_summary]. *)
Definition category_spending_where (user_id start_date end_date : string) : string :=
  "user_id = '" ++ user_id ++ "' AND type = 'expense' AND date >= '"
  ++ start_date ++ "' AND date <= '" ++ end_date ++ "'".

Definition category_spending_aggregates : list (string * string) :=
  [("SUM", "amount"); ("COUNT", "*")].

(** [get_category_spending_summary(user_id, start_date, end_date)] *)
Definition get_category_spending_summary (user_id start_date end_date : string)
  : M (list row) :=
  aggregate_safe "transactions" category_spending_aggregates
    (category_spending_where user_id start_date end_date)
    (Some "category_id") "" "sum_amount DESC".

(** [create_user(user_data)] *)
Definition create_user (user_data : row) : M row :=
  execute (build_insert "users" user_data) ;;; ret user_data.

(** *** The body of [create_default_user]

    The values the call draws from its environment: [str(uuid.uuid4())],
    the decoded [bcrypt] hash of ["admin123"] with a fresh salt, and
    [datetime.utcnow().isoformat()]. *)
Record user_inputs := UserInputs {
  new_uuid : string;
  admin_password_hash : string;
  utc_now_iso : string }.

Variable inputs : user_inputs.

Definition default_user_data : row :=
  [("id", VStr (new_uuid inputs)); ("email", VStr "admin@example.com");
   ("password_hash", VStr (admin_password_hash inputs)); ("name", VStr "Admin User");
   ("created_at", VStr (utc_now_iso inputs));
   ("preferences", VStr ("{" ++ dq ++ "default_currency" ++ dq ++ ": " ++ dq ++ "KES"
                         ++ dq ++ ", " ++ dq ++ "is_default" ++ dq ++ ": true}"))].

(** The [try] body of [create_default_user] as the source writes it. *)
Definition default_user_body : M (bool * option string) :=
  user_count <- get_user_count ;;
  if (user_count >? 0)%Z then ret (false, None)
  else _ <- create_user default_user_data ;; ret (true, Some (new_uuid inputs)).

(** [create_default_user] with that body. *)
Definition create_default_user_src : M (bool * option string) :=
  try_except default_user_body (fun _ => ret (false, None)).

(** ** detect_pesadb_capabilities *)

Record capabilities := Capabilities {
  cap_count : bool; cap_sum : bool; cap_avg : bool; cap_min : bool;
  cap_max : bool; cap_group_by : bool; cap_having : bool }.

(** A query through a caller-supplied [query_func] acting on the gateway. *)
Definition query_with (f : St -> string -> outcome (list row) * St) (sql : string)
  : M (list row) :=
  fun w => let (o, s') := f (gw w) sql in (o, World s' (exec_log w)).

(** [try: await q(sql); flag = True  except: pass] *)
Definition probe_ok (q : string -> M (list row)) (sql : string) : M bool :=
  try_except (_ <- q sql ;; ret true) (fun _ => ret false).

Definition unbound_query_db : py_exc :=
  PyExc "UnboundLocalError"
    "cannot access local variable 'query_db' where it is not associated with a value".

(** [query_func = None] selects the module's [query_db].  The function
    imports [query_db] in that branch only, which makes [query_db] a local
    name of the whole function: the MIN/MAX probe, written with [query_db],
    raises [UnboundLocalError] when a [query_func] was passed. *)
Definition detect_pesadb_capabilities
    (query_func : option (St -> string -> outcome (list row) * St)) : M capabilities :=
  let qf := match query_func with None => query | Some f => query_with f end in
  let local_query_db :=
    match query_func with None => query | Some _ => fun _ => raise unbound_query_db end in
  c <- probe_ok qf "SELECT COUNT(*) as test FROM categories LIMIT 1" ;;
  s <- probe_ok qf "SELECT SUM(id) as test FROM categories LIMIT 1" ;;
  a <- probe_ok qf "SELECT AVG(id) as test FROM categories LIMIT 1" ;;
  m <- probe_ok local_query_db "SELECT MIN(id) as test FROM categories LIMIT 1" ;;
  g <- probe_ok qf "SELECT is_default, COUNT(*) FROM categories GROUP BY is_default" ;;
  h <- probe_ok qf ("SELECT is_default, COUNT(*) as cnt FROM categories GROUP BY "
                    ++ "is_default HAVING COUNT(*) > 0") ;;
  ret (Capabilities c s a m m g h).

(** ** Reading an SQL string literal back

    The reading side of [escape_string]: inside single quotes, a doubled
    quote stands for one quote and a single quote closes the literal. *)

(** [s] with each single quote doubled. *)
Fixpoint double_quotes (s : string) : string :=
  match s with
  | EmptyString => EmptyString
  | String c r => if Ascii.eqb c (ascii_of_nat 39) then sq ++ sq ++ double_quotes r
                  else String c (double_quotes r)
  end.

(** The body of a literal after its opening quote: its text and what
    follows the closing quote. *)
Fixpoint read_sql_quoted (s : string) : option (string * string) :=
  match s with
  | EmptyString => None
  | String c r =>
      if Ascii.eqb c (ascii_of_nat 39) then
        match r with
        | String c2 r2 =>
            if Ascii.eqb c2 (ascii_of_nat 39)
            then option_map (fun p => (String c2 (fst p), snd p)) (read_sql_quoted r2)
            else Some (EmptyString, r)
        | EmptyString => Some (EmptyString, EmptyString)
        end
      else option_map (fun p => (String c (fst p), snd p)) (read_sql_quoted r)
  end.

(** The text of [s] read as one complete SQL string literal. *)
Definition sql_string_literal (s : string) : option string :=
  match s with
  | String c r =>
      if Ascii.eqb c (ascii_of_nat 39) then
        match read_sql_quoted r with
        | Some (x, EmptyString) => Some x
        | _ => None
        end
      else None
  | EmptyString => None
  end.

(** The INSERT statements of the default categories, in their order. *)
Definition category_inserts : list string :=
  map (fun '(cat_id, name, icon, color, keywords) =>
         category_insert_sql cat_id name icon color keywords) default_categories.

(** The order [insert_by] keeps between two neighbours of its list. *)
Definition insert_order (before : value -> value -> bool) (p q : value * row) : Prop :=
  before (fst q) (fst p) = false.

(** The order [results.sort(key=..., reverse=rev)] leaves between two
    consecutive rows: the later key is not smaller (ascending) or not
    larger (descending) under Python's [<]. *)
Definition key_sorted (sort_col : string) (rev : bool) (a b : row) : Prop :=
  (if rev then key_ltb (get_or a sort_col (VInt 0)) (get_or b sort_col (VInt 0))
   else key_ltb (get_or b sort_col (VInt 0)) (get_or a sort_col (VInt 0))) = false.

(** [l1] is [l2] with some elements left out, the others kept in order. *)
Inductive subseq {A : Type} : list A -> list A -> Prop :=
| subseq_nil : subseq [] []
| subseq_skip (x : A) (l1 l2 : list A) : subseq l1 l2 -> subseq l1 (x :: l2)
| subseq_take (x : A) (l1 l2 : list A) : subseq l1 l2 -> subseq (x :: l1) (x :: l2).

(** ** Concrete gateways of the examples *)

(** A stateless gateway that gives [hit] to the query [sql] and [other] to
    every other query. *)
Definition route_gateway (sql : string) (hit other : outcome (list row))
    (s : unit) (q : string) : outcome (list row) * unit :=
  if String.eqb q sql then (hit, s) else (other, s).

(** A stateless gateway that gives [o] to every query. *)
Definition const_gateway (o : outcome (list row)) (s : unit) (q : string)
  : outcome (list row) * unit := (o, s).

(** An [execute] that always succeeds. *)
Definition noop_execute (s : unit) (st : string) : outcome unit * unit := (Ok tt, s).





(** * Properties *)

(** ** The HAVING evaluator *)

(** For the parsable shape ["count_all > 2"], the evaluator keeps exactly
    the rows whose integer [count_all] exceeds 2. *)
Lemma evaluate_having_count_all_gt_2 (r : row) (n : Z) :
  get r "count_all" = Some (VInt n) ->
  evaluate_having "count_all > 2" r = Ok (Z.gtb n 2).
Proof.
  intros H. unfold evaluate_having.
  let v := eval vm_compute in (match_having (strip "count_all > 2")) in
  change (match_having (strip "count_all > 2")) with v.
  cbv iota beta zeta. unfold get_or. rewrite H. cbn.
  unfold Qltb, Qle_bool. cbn. f_equal.
  change (Z.of_nat (PosDef.Pos.to_nat 50 - 48) * 1 + 0)%Z with 2%Z.
  rewrite !Z.mul_1_r, Z.gtb_ltb. destruct (Z.leb_spec n 2), (Z.ltb_spec 2 n); cbn; lia.
Qed.

(** C2 (code_bug): a compound predicate is not a no-op.  [re.match] is
    anchored at the start only, so ["count_all > 2 AND x < 5"] is
    evaluated as its prefix ["count_all > 2"]: a group with [count_all = 1]
    is dropped, and the grouped fallback keeps only the group of ["a"]. *)
Theorem having_compound_filters_on_prefix :
  evaluate_having "count_all > 2 AND x < 5" [("g", VStr "b"); ("count_all", VInt 1)]
    = Ok false
  /\ aggregate_rows [("COUNT", "*")] (Some "g") "count_all > 2 AND x < 5" ""
       [[("g", VStr "a")]; [("g", VStr "b")]; [("g", VStr "a")]; [("g", VStr "a")]]
     = Ok [[("g", VStr "a"); ("count_all", VInt 3)]].
Proof. split; reflexivity. Qed.

(** C10: the HAVING evaluator is total.  It always answers a boolean,
    never an exception: an unparsable predicate, an operator token matched
    by the regex but handled by no comparison branch (e.g. ["=>"]), and a
    group value [float()] cannot convert all yield [True]. *)
Theorem evaluate_having_total :
  (forall having r, exists b, evaluate_having having r = Ok b)
  /\ (forall having r, match_having (strip having) = None ->
        evaluate_having having r = Ok true)
  /\ (forall having r col op ip fp,
        match_having (strip having) = Some (col, op, (ip, fp)) ->
        ~ In op [">"; ">="; "<"; "<="; "="; "=="; "!="; "<>"] ->
        evaluate_having having r = Ok true)
  /\ (forall having r col op ip fp e,
        match_having (strip having) = Some (col, op, (ip, fp)) ->
        is_none (get_or r col (VInt 0)) = false ->
        py_float (get_or r col (VInt 0)) = Raise e ->
        evaluate_having having r = Ok true).
Proof.
  split; [|split; [|split]].
  - intros having r. unfold evaluate_having.
    destruct (match_having (strip having)) as [[[col op] [ip fp]]|]; [|eauto].
    match goal with |- exists b, match ?o with _ => _ end = _ => destruct o end; eauto.
  - intros having r H. unfold evaluate_having. now rewrite H.
  - intros having r col op ip fp H Hop. unfold evaluate_having. rewrite H.
    destruct (if is_none (get_or r col (VInt 0)) then Ok 0%Q
              else py_float (get_or r col (VInt 0))) as [cv|e]; [|reflexivity].
    cbn.
    repeat match goal with
    | |- context [String.eqb op ?s] =>
        destruct (String.eqb_spec op s) as [->|]; [exfalso; apply Hop; cbn; tauto|]
    end.
    reflexivity.
  - intros having r col op ip fp e H Hn He. unfold evaluate_having. rewrite H.
    rewrite Hn, He. reflexivity.
Qed.
(** Case analysis on every gateway answer the goal depends on. *)
Ltac split_queries :=
  repeat (cbv beta iota zeta; cbn [gw exec_log];
          match goal with
          | |- context [query_db ?s ?q] =>
              let E := fresh "Eq" in destruct (query_db s q) as [[?|?] ?] eqn:E
          end).

(** ** Error routing of the four safe wrappers *)

(** C1 (amended): the only error [count_rows_safe] ever raises is the error
    of its native step, unchanged, and only when that error's lowercased
    text does not match the count signature; in the other direction such an
    error is always re-raised.  When the signature matches, no error
    escapes: the result is the number of rows of the filtered fetch, or
    else of the unfiltered fetch, and if both fallback fetches fail it is
    [0] by design. *)
Theorem count_rows_error_routing (table where_ : string) (w : world) :
  (forall e w',
     count_rows_safe table where_ w = (Raise e, w') ->
     count_native table where_ w = (Raise e, w')
     /\ is_count_error (lower (exc_str e)) = false)
  /\ (forall e w',
     count_native table where_ w = (Raise e, w') ->
     is_count_error (lower (exc_str e)) = false ->
     count_rows_safe table where_ w = (Raise e, w'))
  /\ (forall e w1 rs s2,
     count_native table where_ w = (Raise e, w1) ->
     is_count_error (lower (exc_str e)) = true ->
     query_db (gw w1) (count_fetch_sql table where_) = (Ok rs, s2) ->
     count_rows_safe table where_ w
       = (Ok (Z.of_nat (length rs)), World s2 (exec_log w1)))
  /\ (forall e w1 e1 s2 rs s3,
     count_native table where_ w = (Raise e, w1) ->
     is_count_error (lower (exc_str e)) = true ->
     query_db (gw w1) (count_fetch_sql table where_) = (Raise e1, s2) ->
     query_db s2 (count_fetch_all_sql table) = (Ok rs, s3) ->
     count_rows_safe table where_ w
       = (Ok (Z.of_nat (length rs)), World s3 (exec_log w1)))
  /\ (forall e w1 e1 s2 e2 s3,
     count_native table where_ w = (Raise e, w1) ->
     is_count_error (lower (exc_str e)) = true ->
     query_db (gw w1) (count_fetch_sql table where_) = (Raise e1, s2) ->
     query_db s2 (count_fetch_all_sql table) = (Raise e2, s3) ->
     count_rows_safe table where_ w = (Ok 0%Z, World s3 (exec_log w1))).
Proof.
  unfold count_rows_safe, try_except.
  split; [|split; [|split; [|split]]].
  - intros e w' H.
    destruct (count_native table where_ w) as [[n|e0] w0] eqn:E; [discriminate|].
    destruct (is_count_error (lower (exc_str e0))) eqn:Hc.
    + exfalso. revert H. unfold count_fallback, try_except, bind, query, ret.
      split_queries; intros H'; congruence.
    + cbv [raise] in H. inversion H; subst. auto.
  - intros e w' H Hc. rewrite H, Hc. reflexivity.
  - intros e w1 rs s2 H Hc H1. rewrite H, Hc.
    unfold count_fallback, try_except, bind, query, ret.
    rewrite H1. reflexivity.
  - intros e w1 e1 s2 rs s3 H Hc H1 H2. rewrite H, Hc.
    unfold count_fallback, try_except, bind, query, ret.
    rewrite H1. cbv beta iota zeta; cbn [gw exec_log]. rewrite H2. reflexivity.
  - intros e w1 e1 s2 e2 s3 H Hc H1 H2. rewrite H, Hc.
    unfold count_fallback, try_except, bind, query, ret.
    rewrite H1. cbv beta iota zeta; cbn [gw exec_log]. rewrite H2. reflexivity.
Qed.

(** Fallback trigger of each wrapper as the code has it: given the native
    step raising [e], the fallback runs exactly when the wrapper's own
    condition on the lowercased text [m] holds, and [e] is re-raised
    otherwise.
    [count_rows]: "count" and ("syntax" or "expected identifier near");
    [sum_over]/[avg_over]: "sum"/"avg" and ("syntax" or
    "expected identifier"); [aggregate]: the lowercased name of some
    requested function and ("syntax" or "expected identifier"). *)
Theorem fallback_trigger_per_operation (e : py_exc) (w w1 : world) :
  let m := lower (exc_str e) in
  (forall table where_,
     count_native table where_ w = (Raise e, w1) ->
     count_rows_safe table where_ w =
       if contains "count" m
          && (contains "syntax" m || contains "expected identifier near" m)
       then count_fallback table where_ w1 else (Raise e, w1))
  /\ (forall table column where_,
     sum_native table column where_ w = (Raise e, w1) ->
     sum_safe table column where_ w =
       if contains "sum" m && (contains "syntax" m || contains "expected identifier" m)
       then sum_fallback table column where_ w1 else (Raise e, w1))
  /\ (forall table column where_,
     avg_native table column where_ w = (Raise e, w1) ->
     avg_safe table column where_ w =
       if contains "avg" m && (contains "syntax" m || contains "expected identifier" m)
       then avg_fallback table column where_ w1 else (Raise e, w1))
  /\ (forall table aggregates where_ group_by having order_by,
     query_db (gw w)
       (aggregate_native_sql table aggregates where_ group_by having order_by)
       = (Raise e, gw w1) ->
     exec_log w1 = exec_log w ->
     aggregate_safe table aggregates where_ group_by having order_by w =
       if existsb (fun '(f, _) => contains (lower f) m) aggregates
          && (contains "syntax" m || contains "expected identifier" m)
       then aggregate_fallback table aggregates where_ group_by having order_by w1
       else (Raise e, w1)).
Proof.
  intros m. split; [|split; [|split]].
  - intros table where_ H. unfold count_rows_safe, try_except. rewrite H.
    unfold is_count_error. fold m.
    destruct (contains "expected identifier near" m), (contains "count" m),
      (contains "syntax" m); reflexivity.
  - intros table column where_ H. unfold sum_safe, try_except. rewrite H. unfold is_fn_error. subst m. destruct (_ && _); reflexivity.
  - intros table column where_ H. unfold avg_safe, try_except. rewrite H. unfold is_fn_error. subst m. destruct (_ && _); reflexivity.
  - intros table aggregates where_ group_by having order_by H Hl.
    unfold aggregate_safe, try_except, query. rewrite H.
    replace (World (gw w1) (exec_log w)) with w1
      by (destruct w1; cbn in *; congruence).
    unfold is_aggregate_error. subst m. destruct (_ && _); reflexivity.
Qed.


(** C4 (code bug): the four wrappers do not share one trigger.  Take a
    native error whose lowercased text [m] holds "expected identifier" but
    neither "expected identifier near" nor "syntax".  [count_rows]
    re-raises it, even when [m] names "count", while [sum_over], [avg_over]
    and [aggregate] take their fallback as soon as [m] names their
    function. *)
Theorem count_rows_trigger_narrower (e : py_exc) (w w1 : world) :
  let m := lower (exc_str e) in
  contains "expected identifier" m = true ->
  contains "expected identifier near" m = false ->
  contains "syntax" m = false ->
  (forall table where_,
     count_native table where_ w = (Raise e, w1) ->
     count_rows_safe table where_ w = (Raise e, w1))
  /\ (forall table column where_,
     contains "sum" m = true ->
     sum_native table column where_ w = (Raise e, w1) ->
     sum_safe table column where_ w = sum_fallback table column where_ w1)
  /\ (forall table column where_,
     contains "avg" m = true ->
     avg_native table column where_ w = (Raise e, w1) ->
     avg_safe table column where_ w = avg_fallback table column where_ w1)
  /\ (forall table aggregates where_ group_by having order_by,
     existsb (fun '(f, _) => contains (lower f) m) aggregates = true ->
     query_db (gw w)
       (aggregate_native_sql table aggregates where_ group_by having order_by)
       = (Raise e, gw w1) ->
     exec_log w1 = exec_log w ->
     aggregate_safe table aggregates where_ group_by having order_by w
       = aggregate_fallback table aggregates where_ group_by having order_by w1).
Proof.
  intros m Hid Hnear Hsyn.
  destruct (fallback_trigger_per_operation e w w1) as [Hc [Hs [Ha Hg]]].
  fold m in Hc, Hs, Ha, Hg.
  split; [|split; [|split]].
  - intros table where_ H. rewrite (Hc table where_ H), Hnear, Hsyn.
    destruct (contains "count" m); reflexivity.
  - intros table column where_ Hf H. rewrite (Hs table column where_ H), Hf, Hid.
    rewrite orb_true_r. reflexivity.
  - intros table column where_ Hf H. rewrite (Ha table column where_ H), Hf, Hid.
    rewrite orb_true_r. reflexivity.
  - intros table aggregates where_ group_by having order_by Hf H Hl.
    rewrite (Hg table aggregates where_ group_by having order_by H Hl), Hf, Hid.
    rewrite orb_true_r. reflexivity.
Qed.

(** ** sum_over and avg_over on empty and zero results *)

(** No rows from the gateway: [sum_safe] answers [0.0] and [avg_safe]
    answers [None], whether the native query or the fallback fetch is the
    one that comes back empty. *)
Lemma sum_avg_empty_results (table column : string) (w : world) (s1 : St) :
  (query_db (gw w) (sum_native_sql table column "") = (Ok [], s1) ->
   sum_safe table column "" w = (Ok (VFloat 0), World s1 (exec_log w)))
  /\ (query_db (gw w) (avg_native_sql table column "") = (Ok [], s1) ->
   avg_safe table column "" w = (Ok None, World s1 (exec_log w)))
  /\ (forall e w1,
       sum_native table column "" w = (Raise e, w1) ->
       is_fn_error "sum" (lower (exc_str e)) = true ->
       query_db (gw w1) (column_fetch_sql table column "") = (Ok [], s1) ->
       sum_safe table column "" w = (Ok (VFloat 0), World s1 (exec_log w1)))
  /\ (forall e w1,
       avg_native table column "" w = (Raise e, w1) ->
       is_fn_error "avg" (lower (exc_str e)) = true ->
       query_db (gw w1) (column_fetch_sql table column "") = (Ok [], s1) ->
       avg_safe table column "" w = (Ok None, World s1 (exec_log w1))).
Proof.
  split; [|split; [|split]].
  - intros H. unfold sum_safe, sum_native, try_except, bind, query.
    rewrite H. reflexivity.
  - intros H. unfold avg_safe, avg_native, try_except, bind, query.
    rewrite H. reflexivity.
  - intros e w1 H Hc H1. unfold sum_safe, try_except. rewrite H, Hc.
    unfold sum_fallback, bind, query. rewrite H1. reflexivity.
  - intros e w1 H Hc H1. unfold avg_safe, try_except. rewrite H, Hc.
    unfold avg_fallback, bind, query. rewrite H1. reflexivity.
Qed.

(** C8 (code_bug): the native AVG path reads its value with Python's [or],
    so an average of zero ([0] or [0.0]) is falsy, the row is treated as
    having no average, and [avg_safe] answers [None]: the same answer as
    for no rows at all. *)
Theorem avg_zero_reported_as_none (table column : string) (w : world) (s1 : St)
    (v : value) :
  v = VInt 0 \/ v = VFloat 0 ->
  query_db (gw w) (avg_native_sql table column "") = (Ok [[("average", v)]], s1) ->
  avg_safe table column "" w = (Ok None, World s1 (exec_log w)).
Proof.
  intros Hv H. unfold avg_safe, avg_native, try_except, bind, query.
  rewrite H. cbv beta iota zeta.
  assert (Hk : get [("average", v)] ("AVG(" ++ column ++ ")") = None) by reflexivity.
  unfold get_or at 2. rewrite Hk.
  destruct Hv as [-> | ->]; reflexivity.
Qed.


(** ** Ungrouped aggregation *)

Lemma dict_set_keys (k : string) (v : value) (r : row) (x : string) :
  In x (map fst (dict_set k v r)) <-> x = k \/ In x (map fst r).
Proof.
  induction r as [|[k' v'] r IH]; cbn.
  - intuition.
  - destruct (String.eqb_spec k' k) as [->|]; cbn; rewrite ?IH; intuition.
Qed.

Lemma dict_set_nodup (k : string) (v : value) (r : row) :
  NoDup (map fst r) -> NoDup (map fst (dict_set k v r)).
Proof.
  induction r as [|[k' v'] r IH]; cbn; intros Hn.
  - constructor; [intros []|constructor].
  - inversion Hn as [|? ? Hnot Hn']; subst.
    destruct (String.eqb_spec k' k) as [->|]; cbn; [constructor; assumption|].
    constructor; [|auto]. rewrite dict_set_keys. intuition.
Qed.

Lemma fill_aggs_keys (aggregates : list (string * string)) (rows : list row) :
  forall r0 r, fill_aggs aggregates rows r0 = Ok r ->
  (forall x, In x (map fst r) <->
             In x (map fst r0) \/ In x (map (fun '(f, c) => alias f c) aggregates))
  /\ (NoDup (map fst r0) -> NoDup (map fst r)).
Proof.
  induction aggregates as [|[f c] a IH]; cbn; intros r0 r H.
  - injection H as ->. intuition.
  - destruct (calculate_aggregate f c rows) as [v|e]; cbn in H; [|discriminate].
    destruct (IH _ _ H) as [Hk Hd]. split.
    + intros x. rewrite Hk, dict_set_keys. intuition.
    + intros Hn. apply Hd, dict_set_nodup, Hn.
Qed.

(** C3 (amended): the native path returns the gateway's rows as they are.
    In the ungrouped fallback path, an empty fetch gives an empty result;
    a non-empty fetch, when the call returns normally, gives exactly one
    row whose keys are the distinct generated aliases of the requested
    aggregates. *)
Theorem aggregate_ungrouped_shape (table : string) (aggregates : list (string * string))
    (where_ : string) (group_by : option string) (having order_by : string) (w : world) :
  (forall rs s1,
     query_db (gw w)
       (aggregate_native_sql table aggregates where_ group_by having order_by)
       = (Ok rs, s1) ->
     aggregate_safe table aggregates where_ group_by having order_by w
       = (Ok rs, World s1 (exec_log w)))
  /\ (forall e s1 rows s2,
     active_group group_by = None ->
     query_db (gw w)
       (aggregate_native_sql table aggregates where_ group_by having order_by)
       = (Raise e, s1) ->
     is_aggregate_error aggregates (lower (exc_str e)) = true ->
     query_db s1 (aggregate_fetch_sql table aggregates where_ group_by) = (Ok rows, s2) ->
     (rows = [] ->
        aggregate_safe table aggregates where_ group_by having order_by w
          = (Ok [], World s2 (exec_log w)))
     /\ (forall res,
           fst (aggregate_safe table aggregates where_ group_by having order_by w)
             = Ok res ->
           rows <> [] ->
           exists r, res = [r] /\ NoDup (map fst r)
             /\ forall k, In k (map fst r) <->
                          In k (map (fun '(f, c) => alias f c) aggregates))).
Proof.
  split.
  - intros rs s1 H. unfold aggregate_safe, try_except, query. rewrite H. reflexivity.
  - intros e s1 rows s2 Hg H Hc Hf.
    assert (Hrun : aggregate_safe table aggregates where_ group_by having order_by w
                   = (aggregate_rows aggregates group_by having order_by rows,
                      World s2 (exec_log w))).
    { unfold aggregate_safe, try_except, query. rewrite H.
      cbv beta iota zeta. rewrite Hc.
      unfold aggregate_fallback, bind, query, lift. cbn [gw exec_log]. rewrite Hf.
      reflexivity. }
    rewrite Hrun. split.
    + intros ->. reflexivity.
    + intros res Hres Hne. cbn [fst] in Hres. unfold aggregate_rows in Hres.
      destruct rows as [|r0 rows']; [contradiction|]. rewrite Hg in Hres.
      destruct (fill_aggs aggregates (r0 :: rows') []) as [r|e'] eqn:Ef;
        cbn in Hres; [|discriminate].
      injection Hres as <-. exists r. split; [reflexivity|].
      destruct (fill_aggs_keys _ _ _ _ Ef) as [Hk Hd]. split.
      * apply Hd. constructor.
      * intros k. rewrite Hk. cbn. intuition.
Qed.


(** ** Grouped aggregation *)

Lemma Qeq_bool_comm (x y : Q) : Qeq_bool x y = Qeq_bool y x.
Proof.
  destruct (Qeq_bool x y) eqn:E1, (Qeq_bool y x) eqn:E2; try reflexivity.
  - apply Qeq_bool_iff in E1. rewrite <- E2. symmetry. apply Qeq_bool_iff.
    now symmetry.
  - apply Qeq_bool_iff in E2. rewrite <- E1. apply Qeq_bool_iff. now symmetry.
Qed.

Lemma py_eq_sym (a b : value) : py_eq a b = py_eq b a.
Proof.
  destruct a, b; cbn; try reflexivity; try apply Qeq_bool_comm.
  apply String.eqb_sym.
Qed.

Lemma py_eq_refl (a : value) : is_hashable a = true -> py_eq a a = true.
Proof.
  destruct a; cbn; intros H; try reflexivity; try discriminate;
    try (apply Qeq_bool_iff; reflexivity).
  apply String.eqb_refl.
Qed.

Lemma py_eq_trans (a b c : value) :
  py_eq a b = true -> py_eq b c = true -> py_eq a c = true.
Proof.
  destruct a, b, c; cbn; intros H1 H2; try discriminate; try reflexivity;
    try (apply Qeq_bool_iff; apply Qeq_bool_iff in H1, H2;
         eapply Qeq_trans; eassumption).
  rewrite String.eqb_eq in *. congruence.
Qed.


Lemma ForallOrdPairs_snoc {A} (R : A -> A -> Prop) (l : list A) (y : A) :
  ForallOrdPairs R l -> (forall x, In x l -> R x y) -> ForallOrdPairs R (app l [y]).
Proof.
  induction l as [|x l IH]; cbn; intros H Hy.
  - repeat constructor.
  - inversion H as [|? ? Hx Hl]; subst. constructor.
    + apply Forall_app. split; [assumption|]. constructor; [apply Hy; auto|constructor].
    + apply IH; auto.
Qed.

Lemma ForallOrdPairs_after {A} (R : A -> A -> Prop) (l1 l2 : list A) (x : A) :
  ForallOrdPairs R (app l1 (x :: l2)) -> forall y, In y l2 -> R x y.
Proof.
  induction l1 as [|z l1 IH]; cbn; intros H y Hy.
  - inversion H as [|? ? Hx _]; subst. eapply Forall_forall; eauto.
  - inversion H; subst. eauto.
Qed.

Lemma ForallOrdPairs_before {A} (R : A -> A -> Prop) (l1 l2 : list A) (x : A) :
  ForallOrdPairs R (app l1 (x :: l2)) -> forall y, In y l1 -> R y x.
Proof.
  induction l1 as [|z l1 IH]; cbn; intros H y Hy; [contradiction|].
  inversion H as [|? ? Hz Hl]; subst. destruct Hy as [<-|Hy]; eauto.
  eapply Forall_forall; [eassumption|]. apply in_or_app. right. left. reflexivity.
Qed.

Lemma filter_all_false {A} (f : A -> bool) (l : list A) :
  (forall x, In x l -> f x = false) -> filter f l = [].
Proof.
  induction l as [|x l IH]; cbn; intros H; [reflexivity|].
  rewrite H by auto. apply IH. auto.
Qed.

Lemma rows_with_snoc (gb : string) (k v : value) (seen : list row) (r : row) :
  get r gb = Some v ->
  rows_with gb k (app seen [r]) = app (rows_with gb k seen) (if py_eq v k then [r] else []).
Proof.
  intros Hv. unfold rows_with. rewrite filter_app. cbn. rewrite Hv.
  destruct (py_eq v k); reflexivity.
Qed.

(** The two ways [group_add] can go: a new group at the end, or the row
    appended to the first group whose key is equal. *)
Lemma group_add_cases (k : value) (r : row) (acc : list (value * list row)) :
  ((forall g, In g acc -> py_eq (fst g) k = false)
   /\ group_add k r acc = app acc [(k, [r])])
  \/ (exists pre k' rs post,
        acc = app pre ((k', rs) :: post)
        /\ (forall g, In g pre -> py_eq (fst g) k = false)
        /\ py_eq k' k = true
        /\ group_add k r acc = app pre ((k', app rs [r]) :: post)).
Proof.
  induction acc as [|[k0 rs0] acc IH]; cbn.
  - left. split; [intros _ []|reflexivity].
  - destruct (py_eq k0 k) eqn:E.
    + right. exists [], k0, rs0, acc. cbn. repeat split; auto. intros _ [].
    + destruct IH as [[H1 H2]|(pre & k' & rs & post & -> & H1 & H2 & H3)].
      * left. split; [|rewrite H2; reflexivity].
        intros g [<-|Hg]; auto.
      * right. exists ((k0, rs0) :: pre), k', rs, post. cbn.
        repeat split; auto; [|rewrite H3; reflexivity].
        intros g [<-|Hg]; auto.
Qed.


Lemma in_replace_snd {A B} (pre post : list (A * B)) (a : A) (b b' : B) (x : A) (y : B) :
  In (x, y) (app pre ((a, b) :: post)) ->
  exists y', In (x, y') (app pre ((a, b') :: post)).
Proof.
  intros H. apply in_app_or in H as [H|[H|H]].
  - exists y. apply in_or_app. auto.
  - injection H as <- <-. exists b'. apply in_or_app. right. left. reflexivity.
  - exists y. apply in_or_app. right. right. assumption.
Qed.

Lemma group_add_inv (gb : string) (seen : list row) (acc : list (value * list row))
    (r : row) (k : value) :
  group_inv gb seen acc -> get r gb = Some k -> is_hashable k = true ->
  group_inv gb (app seen [r]) (group_add k r acc).
Proof.
  intros [Hd Hr Hc] Hk Hh.
  assert (Hin_r : In r (app seen [r])) by (apply in_or_app; right; left; reflexivity).
  destruct (group_add_cases k r acc)
    as [[Hnone ->]|(pre & k' & rs & post & -> & Hpre & Hk' & ->)].
  - constructor.
    + rewrite map_app. cbn. apply ForallOrdPairs_snoc; [assumption|].
      intros x Hx. apply in_map_iff in Hx as [g [<- Hg]]. auto.
    + intros k0 rs0 Hin. apply in_app_or in Hin as [Hin|[Heq|[]]].
      * destruct (Hr _ _ Hin) as (-> & Hh0 & r0 & Hr0 & Hg0).
        rewrite (rows_with_snoc _ _ k) by assumption.
        rewrite py_eq_sym. pose proof (Hnone _ Hin) as F. cbn in F. rewrite F.
        rewrite app_nil_r.
        repeat split; auto. exists r0. split; auto. apply in_or_app; auto.
      * injection Heq as <- <-.
        rewrite (rows_with_snoc _ _ k) by assumption. rewrite py_eq_refl by assumption.
        replace (rows_with gb k seen) with (@nil row).
        { repeat split; auto. exists r. auto. }
        symmetry. apply filter_all_false. intros r0 Hr0.
        destruct (Hc _ Hr0) as (v & Hv & _ & k1 & rs1 & Hin1 & He1). rewrite Hv.
        destruct (py_eq v k) eqn:E; [|reflexivity].
        exfalso. pose proof (Hnone _ Hin1) as F. cbn in F.
        rewrite (py_eq_trans _ _ _ He1 E) in F. discriminate.
    + intros r0 Hr0. apply in_app_or in Hr0 as [Hr0|[<-|[]]].
      * destruct (Hc _ Hr0) as (v & Hv & Hhv & k1 & rs1 & Hin1 & He1).
        exists v. repeat split; auto. exists k1, rs1. split; auto.
        apply in_or_app; auto.
      * exists k. repeat split; auto. exists k, [r]. split.
        -- apply in_or_app. right. left. reflexivity.
        -- apply py_eq_refl. assumption.
  - assert (Hkeys : map fst (app pre ((k', app rs [r]) :: post))
                    = map fst (app pre ((k', rs) :: post)))
      by (rewrite !map_app; reflexivity).
    assert (Hd' := Hd). rewrite map_app in Hd'. cbn in Hd'.
    constructor.
    + rewrite Hkeys. assumption.
    + intros k0 rs0 Hin.
      apply in_app_or in Hin as [Hin|[Heq|Hin]].
      * assert (Hold : In (k0, rs0) (app pre ((k', rs) :: post)))
          by (apply in_or_app; auto).
        destruct (Hr _ _ Hold) as (-> & Hh0 & r0 & Hr0 & Hg0).
        rewrite (rows_with_snoc _ _ k) by assumption.
        rewrite py_eq_sym. pose proof (Hpre _ Hin) as F. cbn in F. rewrite F.
        rewrite app_nil_r. repeat split; auto. exists r0. split; auto.
        apply in_or_app; auto.
      * injection Heq as <- <-.
        assert (Hold : In (k', rs) (app pre ((k', rs) :: post)))
          by (apply in_or_app; right; left; reflexivity).
        destruct (Hr _ _ Hold) as (-> & Hh0 & r0 & Hr0 & Hg0).
        rewrite (rows_with_snoc _ _ k) by assumption.
        rewrite py_eq_sym, Hk'. repeat split; auto. exists r0. split; auto.
        apply in_or_app; auto.
      * assert (Hold : In (k0, rs0) (app pre ((k', rs) :: post)))
          by (apply in_or_app; right; right; assumption).
        assert (F : py_eq k' k0 = false).
        { apply (ForallOrdPairs_after _ _ _ _ Hd').
          apply in_map_iff. exists (k0, rs0). auto. }
        destruct (Hr _ _ Hold) as (-> & Hh0 & r0 & Hr0 & Hg0).
        rewrite (rows_with_snoc _ _ k) by assumption.
        destruct (py_eq k k0) eqn:E.
        { rewrite (py_eq_trans _ _ _ Hk' E) in F. discriminate. }
        rewrite app_nil_r. repeat split; auto. exists r0. split; auto.
        apply in_or_app; auto.
    + intros r0 Hr0. apply in_app_or in Hr0 as [Hr0|[<-|[]]].
      * destruct (Hc _ Hr0) as (v & Hv & Hhv & k1 & rs1 & Hin1 & He1).
        destruct (in_replace_snd _ _ _ _ (app rs [r]) _ _ Hin1) as [y' Hy'].
        exists v. repeat split; auto. exists k1, y'. auto.
      * exists k. repeat split; auto. exists k', (app rs [r]). split; auto.
        apply in_or_app. right. left. reflexivity.
Qed.

Lemma group_rows_inv (gb : string) (rows : list row) :
  forall acc seen groups,
  group_inv gb seen acc -> group_rows gb rows acc = Ok groups ->
  group_inv gb (app seen rows) groups.
Proof.
  induction rows as [|r rows IH]; cbn; intros acc seen groups Hi H.
  - injection H as <-. rewrite app_nil_r. assumption.
  - destruct (get r gb) as [k|] eqn:Hk; [|discriminate].
    destruct (is_hashable k) eqn:Hh; [|discriminate].
    replace (app seen (r :: rows)) with (app (app seen [r]) rows)
      by (rewrite <- app_assoc; reflexivity).
    eapply IH; [|eassumption]. apply group_add_inv; assumption.
Qed.

Lemma group_inv_nil (gb : string) : group_inv gb [] [].
Proof. constructor; cbn; [constructor|tauto|tauto]. Qed.


Lemma get_dict_set_same (k : string) (v : value) (r : row) :
  get (dict_set k v r) k = Some v.
Proof.
  induction r as [|[k' v'] r IH]; cbn.
  - rewrite String.eqb_refl. reflexivity.
  - destruct (String.eqb_spec k' k) as [->|Hne]; cbn.
    + rewrite String.eqb_refl. reflexivity.
    + rewrite (proj2 (String.eqb_neq _ _) Hne). exact IH.
Qed.

Lemma get_dict_set_other (k : string) (v : value) (r : row) (x : string) :
  k <> x -> get (dict_set k v r) x = get r x.
Proof.
  intros Hne. induction r as [|[k' v'] r IH]; cbn.
  - destruct (String.eqb_spec k x); [contradiction|reflexivity].
  - destruct (String.eqb_spec k' k) as [->|]; cbn.
    + destruct (String.eqb_spec k x); [contradiction|reflexivity].
    + destruct (String.eqb_spec k' x); [reflexivity|exact IH].
Qed.

Lemma fill_aggs_get_other (aggregates : list (string * string)) (rows : list row)
    (x : string) :
  ~ In x (map (fun '(f, c) => alias f c) aggregates) ->
  forall r0 r, fill_aggs aggregates rows r0 = Ok r -> get r x = get r0 x.
Proof.
  induction aggregates as [|[f c] a IH]; cbn; intros Hx r0 r H.
  - congruence.
  - destruct (calculate_aggregate f c rows) as [v|e]; cbn in H; [|discriminate].
    rewrite (IH ltac:(tauto) _ _ H). apply get_dict_set_other. tauto.
Qed.

Lemma fill_aggs_get_alias (aggregates : list (string * string)) (rows : list row)
    (x : string) (v : value) :
  In x (map (fun '(f, c) => alias f c) aggregates) ->
  (forall f c, In (f, c) aggregates -> alias f c = x ->
               calculate_aggregate f c rows = Ok v) ->
  forall r0 r, fill_aggs aggregates rows r0 = Ok r -> get r x = Some v.
Proof.
  induction aggregates as [|[f c] a IH]; cbn; intros Hx Hv r0 r H; [contradiction|].
  destruct (calculate_aggregate f c rows) as [v'|e] eqn:Ec; cbn in H; [|discriminate].
  destruct (in_dec String.string_dec x (map (fun '(f, c) => alias f c) a)) as [Hin|Hin].
  - eapply IH; eauto.
  - destruct Hx as [<-|]; [|contradiction].
    rewrite (fill_aggs_get_other _ _ _ Hin _ _ H), get_dict_set_same.
    rewrite (Hv f c (or_introl eq_refl) eq_refl) in Ec. congruence.
Qed.

Lemma count_star (f : string) (rows : list row) :
  String.eqb (upper f) "COUNT" = true ->
  calculate_aggregate f "*" rows = Ok (VInt (Z.of_nat (length rows))).
Proof. intros H. unfold calculate_aggregate. rewrite H. reflexivity. Qed.

Lemma group_results_no_having (gb : string) (aggregates : list (string * string))
    (groups : list (value * list row)) (results : list row) :
  group_results gb aggregates "" groups = Ok results ->
  Forall2 (fun g res => fill_aggs aggregates (snd g) [(gb, fst g)] = Ok res)
    groups results.
Proof.
  revert results. induction groups as [|[k rs] g IH]; cbn; intros results H.
  - injection H as <-. constructor.
  - destruct (fill_aggs aggregates rs [(gb, k)]) as [r|e] eqn:E; cbn in H; [|discriminate].
    destruct (group_results gb aggregates "" g) as [rest|e] eqn:E2; cbn in H;
      [|discriminate].
    injection H as <-. constructor; auto.
Qed.

Lemma Forall2_in_r {A B} (P : A -> B -> Prop) (l1 : list A) (l2 : list B) (y : B) :
  Forall2 P l1 l2 -> In y l2 -> exists x, In x l1 /\ P x y.
Proof.
  induction 1 as [|x y' l1 l2 Hp Hf IH]; cbn; [tauto|].
  intros [<-|Hy]; [eauto|]. destruct (IH Hy) as (x' & ? & ?). eauto.
Qed.

Lemma insert_by_perm (before : value -> value -> bool) (x : value * row)
    (l : list (value * row)) :
  Permutation (x :: l) (insert_by before x l).
Proof.
  induction l as [|y l IH]; cbn; [reflexivity|].
  destruct (before (fst x) (fst y)); [reflexivity|].
  rewrite perm_swap. constructor. exact IH.
Qed.

Lemma stable_sort_perm (before : value -> value -> bool) (l : list (value * row)) :
  Permutation l (stable_sort before l).
Proof.
  unfold stable_sort.
  assert (G : forall acc, Permutation (app l acc)
                (fold_left (fun acc x => insert_by before x acc) l acc)).
  { induction l as [|x l IH]; cbn; intros acc; [reflexivity|].
    rewrite <- IH, <- insert_by_perm. apply Permutation_middle. }
  rewrite <- G, app_nil_r. reflexivity.
Qed.

Lemma sort_results_perm (sort_col : string) (rev : bool) (rs rs' : list row) :
  sort_results sort_col rev rs = Ok rs' -> Permutation rs rs'.
Proof.
  unfold sort_results. intros H.
  destruct rs as [|r0 [|r1 rs]]; try (injection H as <-; reflexivity).
  destruct (_ || _); [|discriminate]. injection H as <-.
  rewrite <- stable_sort_perm. cbn. rewrite map_map. cbn. rewrite map_id. reflexivity.
Qed.

Lemma length_filter_perm {A} (f : A -> bool) (l l' : list A) :
  Permutation l l' -> length (filter f l) = length (filter f l').
Proof.
  induction 1; cbn; try reflexivity.
  - destruct (f x); cbn; congruence.
  - destruct (f x), (f y); reflexivity.
  - congruence.
Qed.

Lemma unique_key_count (ks : list value) (v : value) :
  ForallOrdPairs (fun a b => py_eq a b = false) ks ->
  (exists k, In k ks /\ py_eq k v = true) ->
  length (filter (fun k => py_eq k v) ks) = 1.
Proof.
  induction ks as [|a ks IH]; cbn; intros Hd Hex.
  - destruct Hex as (k & [] & _).
  - inversion Hd as [|? ? Hf Hp]; subst.
    destruct (py_eq a v) eqn:E.
    + cbn. f_equal. rewrite filter_all_false; [reflexivity|].
      intros k Hk. destruct (py_eq k v) eqn:E2; [|reflexivity]. exfalso.
      pose proof (proj1 (Forall_forall _ _) Hf k Hk) as F. cbn in F.
      rewrite py_eq_sym in E2.
      rewrite (py_eq_trans _ _ _ E E2) in F. discriminate.
    + apply IH; [assumption|]. destruct Hex as (k & [<-|Hk] & Hkv); [congruence|eauto].
Qed.


(** The grouped path of [aggregate_rows] with an empty HAVING: the
    result is a permutation of one [fill_aggs] row per group of the
    partition loop. *)
Lemma aggregate_rows_grouped (aggregates : list (string * string)) (gb order_by : string)
    (rows results : list row) :
  gb <> "" -> rows <> [] ->
  aggregate_rows aggregates (Some gb) "" order_by rows = Ok results ->
  exists groups results0,
    group_rows gb rows [] = Ok groups
    /\ Forall2 (fun g res => fill_aggs aggregates (snd g) [(gb, fst g)] = Ok res)
         groups results0
    /\ Permutation results0 results.
Proof.
  intros Hgb Hne H. unfold aggregate_rows in H.
  destruct rows as [|r0 rows']; [contradiction|].
  cbn [active_group] in H. rewrite (proj2 (String.eqb_neq _ _) Hgb) in H.
  destruct (group_rows gb (r0 :: rows') []) as [groups|e] eqn:Eg; cbn in H;
    [|discriminate].
  destruct (group_results gb aggregates "" groups) as [results0|e] eqn:Er; cbn in H;
    [|discriminate].
  exists groups, results0. split; [reflexivity|]. split.
  { apply group_results_no_having. assumption. }
  destruct (String.eqb order_by ""); [injection H as <-; reflexivity|].
  destruct (split_ws order_by) as [|sort_col rest]; [discriminate|].
  eapply sort_results_perm. eassumption.
Qed.

(** C7: the grouped fallback with no HAVING filter, when it returns
    normally, partitions the rows by the value of the group column under
    Python equality ([None] with [None], [1] with [1.0] and [True]):
    every input row's value matches exactly one result row, every result
    row's value is the value of some input row, and when [count_all] is
    requested and is only ever the alias of a COUNT aggregate over the star column, each
    result row's [count_all] is the number of input rows with its value.
    The group column is assumed not to be itself a generated alias. *)
Theorem grouped_fallback_partition (aggregates : list (string * string))
    (gb order_by : string) (rows results : list row) :
  gb <> "" ->
  ~ In gb (map (fun '(f, c) => alias f c) aggregates) ->
  aggregate_rows aggregates (Some gb) "" order_by rows = Ok results ->
  (forall r, In r rows -> exists v, get r gb = Some v
     /\ length (filter (fun res => py_eq (get_or res gb VNone) v) results) = 1)
  /\ (forall res, In res results -> exists r v,
        In r rows /\ get r gb = Some v /\ get res gb = Some v)
  /\ (In "count_all" (map (fun '(f, c) => alias f c) aggregates) ->
      (forall f c, In (f, c) aggregates -> alias f c = "count_all" ->
                   String.eqb (upper f) "COUNT" = true /\ c = "*") ->
      forall res, In res results -> exists k,
        get res gb = Some k
        /\ get res "count_all" = Some (VInt (Z.of_nat (length (rows_with gb k rows))))).
Proof.
  intros Hgb Hal H.
  destruct rows as [|r0 rows'].
  { unfold aggregate_rows in H. injection H as <-. cbn. repeat split; tauto. }
  assert (Hne : r0 :: rows' <> []) by discriminate.
  destruct (aggregate_rows_grouped _ _ _ _ _ Hgb Hne H)
    as (groups & results0 & Eg & Hf & Hp).
  set (rows := r0 :: rows') in *.
  pose proof (group_rows_inv gb rows [] [] groups (group_inv_nil gb) Eg) as [Hd Hr Hc].
  cbn [app] in Hd, Hr, Hc.
  (* the group column of each result row is its group's key *)
  assert (Hkey : forall g res, fill_aggs aggregates (snd g) [(gb, fst g)] = Ok res ->
                 get res gb = Some (fst g)).
  { intros [k rs] res E. rewrite (fill_aggs_get_other _ _ _ Hal _ _ E). cbn.
    rewrite String.eqb_refl. reflexivity. }
  assert (Hin_res : forall res, In res results -> exists g, In g groups
            /\ fill_aggs aggregates (snd g) [(gb, fst g)] = Ok res).
  { intros res Hres. apply (Forall2_in_r _ _ _ _ Hf).
    apply (Permutation_in _ (Permutation_sym Hp)). assumption. }
  split; [|split].
  - intros r Hrin. destruct (Hc r Hrin) as (v & Hv & Hhv & k & rs & Hin & Hkv).
    exists v. split; [assumption|].
    rewrite <- (length_filter_perm _ _ _ Hp).
    transitivity (length (filter (fun k => py_eq k v) (map fst groups))).
    + clear - Hf Hkey. induction Hf as [|g res gs ress Hgr Hf' IH]; cbn; [reflexivity|].
      unfold get_or at 1. rewrite (Hkey _ _ Hgr).
      destruct (py_eq (fst g) v); cbn; congruence.
    + apply unique_key_count; [assumption|].
      exists k. split; [|assumption]. apply in_map_iff. exists (k, rs). auto.
  - intros res Hres. destruct (Hin_res res Hres) as ([k rs] & Hg & E).
    destruct (Hr k rs Hg) as (_ & _ & r & Hrin & Hrk).
    exists r, k. repeat split; auto. apply (Hkey _ _ E).
  - intros Hca Hcount res Hres. destruct (Hin_res res Hres) as ([k rs] & Hg & E).
    destruct (Hr k rs Hg) as (Hrs & _).
    exists k. split; [apply (Hkey _ _ E)|].
    rewrite <- Hrs. eapply fill_aggs_get_alias; [eassumption| |eassumption].
    intros f c Hfc Hfa. destruct (Hcount f c Hfc Hfa) as [Hu ->].
    apply count_star. assumption.
Qed.


(** ** The initializer never lets an exception out of a step *)

Lemma ret_total {A} (a : A) : total (ret a).
Proof. intros w. exists a, w. reflexivity. Qed.

Lemma bind_total {A B} (m : M A) (k : A -> M B) :
  total m -> (forall a, total (k a)) -> total (bind m k).
Proof.
  intros Hm Hk w. destruct (Hm w) as (a & w1 & E).
  unfold bind. rewrite E. apply Hk.
Qed.

Lemma try_except_total {A} (m : M A) (h : py_exc -> M A) :
  (forall e, total (h e)) -> total (try_except m h).
Proof.
  intros Hh w. unfold try_except.
  destruct (m w) as [[a|e] w1]; [eauto|apply Hh].
Qed.

Lemma if_total {A} (b : bool) (m1 m2 : M A) :
  total m1 -> total m2 -> total (if b then m1 else m2).
Proof. destruct b; auto. Qed.

Create HintDb total.
#[local] Hint Resolve ret_total bind_total try_except_total if_total : total.

Ltac solve_total :=
  repeat (intros; match goal with
  | |- total (try_except _ _) => apply try_except_total
  | |- total (bind _ _) => apply bind_total
  | |- total (ret _) => apply ret_total
  | |- total (if _ then _ else _) => apply if_total
  | |- total (match ?x with _ => _ end) => destruct x
  | |- forall _, _ => intro
  | |- _ => eauto with total
  end).

Lemma table_exists_total (t : string) : total (table_exists t).
Proof. unfold table_exists. apply try_except_total. solve_total. Qed.

Lemma column_probe_total (sql column : string) : total (column_probe sql column).
Proof. unfold column_probe. apply try_except_total. solve_total. Qed.

Lemma check_users_table_schema_total : total check_users_table_schema.
Proof. unfold check_users_table_schema. apply try_except_total. solve_total. Qed.

Lemma migrate_users_table_total : total migrate_users_table.
Proof. unfold migrate_users_table. apply try_except_total. solve_total. Qed.

Lemma create_table_step_total (t st : string) (acc : counters) :
  total (create_table_step t st acc).
Proof.
  destruct acc as [[c s] errs]. unfold create_table_step.
  apply try_except_total. solve_total.
Qed.

Lemma create_each_total (tables : list (string * string)) :
  forall acc, total (create_each tables acc).
Proof.
  induction tables as [|[t st] rest IH]; cbn; intros acc.
  - apply ret_total.
  - apply bind_total; [apply create_table_step_total|auto].
Qed.

Lemma create_tables_inline_total : total create_tables_inline.
Proof. apply create_each_total. Qed.

Lemma insert_loop_total (statements : list string) :
  forall tn errors, total (insert_loop statements tn errors).
Proof.
  induction statements as [|st rest IH]; cbn [insert_loop]; intros tn errors.
  - apply ret_total.
  - destruct (starts_with "INSERT INTO" (upper st)); [|auto].
    destruct (split_on "INSERT INTO" st) as [|x [|after l]].
    + destruct (insert_handler _ tn errors); auto using ret_total.
    + destruct (insert_handler _ tn errors); auto using ret_total.
    + apply bind_total.
      * apply try_except_total. intros. apply ret_total.
      * intros [errs|errs]; auto using ret_total.
Qed.

Lemma create_tables_total : total create_tables.
Proof.
  unfold create_tables.
  destruct schema_file as [content|e]; [|apply create_tables_inline_total].
  destruct (parse_sql_statements content) as [|st sts];
    [apply create_tables_inline_total|].
  apply bind_total; [apply create_each_total|].
  intros [[c s] errs]. apply bind_total; [apply insert_loop_total|].
  intros. apply ret_total.
Qed.

Lemma verify_each_total (tables : list string) :
  forall missing, total (verify_each tables missing).
Proof.
  induction tables as [|t rest IH]; cbn; intros missing.
  - apply ret_total.
  - apply bind_total; [apply table_exists_total|auto].
Qed.

Lemma verify_database_total : total verify_database.
Proof. unfold verify_database. apply try_except_total. solve_total. Qed.

Lemma seed_default_categories_total : total seed_default_categories.
Proof. unfold seed_default_categories. apply try_except_total. solve_total. Qed.

Lemma create_default_user_total : total create_default_user.
Proof. unfold create_default_user. apply try_except_total. solve_total. Qed.


#[local] Hint Resolve table_exists_total column_probe_total check_users_table_schema_total
  migrate_users_table_total create_each_total create_tables_inline_total
  insert_loop_total create_tables_total verify_each_total verify_database_total
  seed_default_categories_total create_default_user_total : total.

(** ** The report of initialize_database *)

Lemma guard_spec {A} (m : M A) (r : report) (k : A -> M report) (w : world)
    (Q : outcome report * world -> Prop) :
  total m -> (forall a w', m w = (Ok a, w') -> Q (k a w')) -> Q (guard m r k w).
Proof.
  intros Hm Hk. destruct (Hm w) as (a & w' & E).
  unfold guard. rewrite E. apply Hk. assumption.
Qed.

Lemma finish_initialization_spec (seed_categories create_default_user_flag : bool)
    (r : report) (w : world) :
  exists r' w',
    finish_initialization seed_categories create_default_user_flag r w = (Ok r', w')
    /\ r_success r' = true /\ r_verified r' = r_verified r.
Proof.
  unfold finish_initialization.
  apply guard_spec; [solve_total|]. intros seeded w1 _.
  apply guard_spec; [solve_total|]. intros user_result w2 _.
  eexists _, _. split; [reflexivity|].
  destruct r; destruct seeded as [n|]; destruct user_result as [[created [u|]]|];
    try destruct (String.eqb u ""); cbn; auto.
Qed.

Lemma verify_database_true (w w' : world) :
  verify_database w = (Ok true, w') ->
  verify_each required_tables [] w = (Ok [], w').
Proof.
  unfold verify_database, try_except, bind. intros H.
  destruct (verify_each required_tables [] w) as [[missing|e] w1].
  - destruct missing; cbn in H; inversion H; subst; reflexivity.
  - cbn in H. inversion H.
Qed.

(** What [verify_each] collects: the tables whose probe answered [False],
    after the ones already missing. *)
Lemma verify_each_missing (tables : list string) :
  forall missing w missing' w',
  verify_each tables missing w = (Ok missing', w') ->
  exists found, missing' = app missing found
    /\ forall t, In t found -> In t tables.
Proof.
  induction tables as [|t rest IH]; cbn [verify_each]; intros missing w missing' w' H.
  - exists []. cbn in H. injection H as <- _. rewrite app_nil_r. split; [reflexivity|].
    intros _ [].
  - unfold bind in H. destruct (table_exists t w) as [[b|e] w1]; [|discriminate].
    destruct (IH _ _ _ _ H) as (found & -> & Hf).
    destruct b.
    + exists found. split; [reflexivity|]. intros x Hx. right. auto.
    + exists (t :: found). rewrite <- app_assoc. split; [reflexivity|].
      intros x [<-|Hx]; [left; reflexivity|right; auto].
Qed.

Lemma r_verified_set_verified (b : bool) (r : report) :
  r_verified (set_verified b r) = b.
Proof. destruct r; reflexivity. Qed.

(** C5: [initialize_database] always returns a report, and its [success]
    flag is exactly its [verified] flag, whatever errors were recorded.
    When it is [True], the run itself went through its steps in order
    (the schema check, the migration when one was needed, [create_tables])
    and then ran a verification pass that found every required table:
    either the first pass, straight after [create_tables], or, when that
    pass failed and [create_tables] had created nothing, the second pass
    straight after [create_tables_inline]. *)
Theorem initialize_success_iff_verified (seed_categories create_default_user_flag : bool)
    (w : world) :
  exists r w',
    initialize_database seed_categories create_default_user_flag w = (Ok r, w')
    /\ r_success r = r_verified r
    /\ (r_success r = true ->
        exists sc w2 w3 tc ts te w4,
          check_users_table_schema w = (Ok sc, w2)
          /\ (if sc_needs_migration sc
              then exists ok, migrate_users_table w2 = (Ok ok, w3)
              else w3 = w2)
          /\ create_tables w3 = (Ok (tc, ts, te), w4)
          /\ ((exists w5, verify_database w4 = (Ok true, w5)
                         /\ verify_each required_tables [] w4 = (Ok [], w5))
              \/ (tc = 0 /\ exists w5 inline w6 w7,
                     verify_database w4 = (Ok false, w5)
                     /\ create_tables_inline w5 = (Ok inline, w6)
                     /\ verify_database w6 = (Ok true, w7)
                     /\ verify_each required_tables [] w6 = (Ok [], w7)))).
Proof.
  pattern (initialize_database seed_categories create_default_user_flag w).
  unfold initialize_database.
  apply guard_spec; [solve_total|]. intros db_created w1 Edb.
  unfold ensure_database_exists, ret in Edb. injection Edb as <- <-.
  apply guard_spec; [solve_total|]. intros sc w2 Esc.
  apply guard_spec; [solve_total|]. intros migration w3 Emig.
  assert (Hm : if sc_needs_migration sc
               then exists ok, migrate_users_table w2 = (Ok ok, w3)
               else w3 = w2).
  { destruct (sc_needs_migration sc).
    - unfold bind in Emig.
      destruct (migrate_users_table w2) as [[ok|e] w2'] eqn:E; [|discriminate].
      unfold ret in Emig. injection Emig as _ <-. eauto.
    - unfold ret in Emig. injection Emig as _ <-. reflexivity. }
  clear Emig.
  apply guard_spec; [solve_total|]. intros [[tc ts] te] w4 Ect.
  apply guard_spec; [solve_total|]. intros verified w5 Ev.
  cbv beta zeta.
  destruct verified.
  - match goal with
    | |- context [finish_initialization ?a ?b ?r ?v] =>
        destruct (finish_initialization_spec a b r v) as (r' & w' & E & Hs & Hv')
    end.
    rewrite E. exists r', w'. split; [reflexivity|].
    rewrite r_verified_set_verified in Hv'. split; [congruence|].
    intros _. exists sc, w2, w3, tc, ts, te, w4.
    split; [exact Esc|]. split; [exact Hm|]. split; [exact Ect|].
    left. exists w5. split; [exact Ev|]. apply verify_database_true. exact Ev.
  - destruct (Nat.eqb tc 0) eqn:Htc; cbv beta iota zeta.
    + match goal with
      | |- context [guard ?m ?r ?k ?v] => pattern (guard m r k v)
      end.
      apply guard_spec; [solve_total|]. intros inline w6 Ei.
      destruct inline as [[c' s'] ie]. cbv beta iota zeta.
      match goal with
      | |- context [guard ?m ?r ?k ?v] => pattern (guard m r k v)
      end.
      apply guard_spec; [solve_total|]. intros verified' w7 Ev'.
      cbv beta zeta.
      destruct verified'.
      * match goal with
        | |- context [finish_initialization ?a ?b ?r ?v] =>
            destruct (finish_initialization_spec a b r v) as (r' & w' & E & Hs & Hv')
        end.
        rewrite E. exists r', w'. split; [reflexivity|].
        rewrite r_verified_set_verified in Hv'. split; [congruence|].
        intros _. exists sc, w2, w3, tc, ts, te, w4.
        split; [exact Esc|]. split; [exact Hm|]. split; [exact Ect|].
        right. split; [apply Nat.eqb_eq; exact Htc|].
        exists w5, (c', s', ie), w6, w7.
        split; [exact Ev|]. split; [exact Ei|]. split; [exact Ev'|].
        apply verify_database_true. exact Ev'.
      * eexists _, _. split; [reflexivity|].
        split; [destruct migration as [[|]|]; reflexivity|].
        intros H. exfalso. destruct migration as [[|]|]; cbn in H; discriminate H.
    + eexists _, _. split; [reflexivity|].
      split; [destruct migration as [[|]|]; reflexivity|].
      intros H. exfalso. destruct migration as [[|]|]; cbn in H; discriminate H.
Qed.


(** ** The statement log only grows *)

Lemma ret_appends {A} (a : A) : appends (ret a).
Proof. intros w o w' H. injection H as _ <-. exists []. rewrite app_nil_r. reflexivity. Qed.

Lemma raise_appends {A} (e : py_exc) : appends (@raise A e).
Proof. intros w o w' H. injection H as _ <-. exists []. rewrite app_nil_r. reflexivity. Qed.

Lemma lift_appends {A} (o0 : outcome A) : appends (lift o0).
Proof. intros w o w' H. injection H as _ <-. exists []. rewrite app_nil_r. reflexivity. Qed.

Lemma query_appends (sql : string) : appends (query sql).
Proof.
  intros w o w' H. unfold query in H. destruct (query_db (gw w) sql) as [o1 s1].
  injection H as _ <-. exists []. cbn. rewrite app_nil_r. reflexivity.
Qed.

Lemma execute_appends (sql : string) : appends (execute sql).
Proof.
  intros w o w' H. unfold execute in H. destruct (execute_db (gw w) sql) as [o1 s1].
  injection H as _ <-. exists [sql]. reflexivity.
Qed.

Lemma bind_appends {A B} (m : M A) (k : A -> M B) :
  appends m -> (forall a, appends (k a)) -> appends (bind m k).
Proof.
  intros Hm Hk w o w' H. unfold bind in H.
  destruct (m w) as [[a|e] w1] eqn:E.
  - destruct (Hm _ _ _ E) as [l1 H1]. destruct (Hk a _ _ _ H) as [l2 H2].
    exists (app l1 l2). rewrite H2, H1, app_assoc. reflexivity.
  - injection H as _ <-. eapply Hm. eassumption.
Qed.

Lemma try_except_appends {A} (m : M A) (h : py_exc -> M A) :
  appends m -> (forall e, appends (h e)) -> appends (try_except m h).
Proof.
  intros Hm Hh w o w' H. unfold try_except in H.
  destruct (m w) as [[a|e] w1] eqn:E.
  - injection H as _ <-. eapply Hm. eassumption.
  - destruct (Hm _ _ _ E) as [l1 H1]. destruct (Hh e _ _ _ H) as [l2 H2].
    exists (app l1 l2). rewrite H2, H1, app_assoc. reflexivity.
Qed.

Lemma if_appends {A} (b : bool) (m1 m2 : M A) :
  appends m1 -> appends m2 -> appends (if b then m1 else m2).
Proof. destruct b; auto. Qed.

Lemma guard_appends {A} (m : M A) (r : report) (k : A -> M report) :
  appends m -> (forall a, appends (k a)) -> appends (guard m r k).
Proof.
  intros Hm Hk w o w' H. unfold guard in H.
  destruct (m w) as [[a|e] w1] eqn:E.
  - destruct (Hm _ _ _ E) as [l1 H1]. destruct (Hk a _ _ _ H) as [l2 H2].
    exists (app l1 l2). rewrite H2, H1, app_assoc. reflexivity.
  - injection H as _ <-. eapply Hm. eassumption.
Qed.

Create HintDb appends.
#[local] Hint Resolve ret_appends raise_appends lift_appends query_appends
  execute_appends : appends.

Ltac solve_appends :=
  repeat (intros; match goal with
  | |- appends (try_except _ _) => apply try_except_appends
  | |- appends (bind _ _) => apply bind_appends
  | |- appends (guard _ _ _) => apply guard_appends
  | |- appends (if _ then _ else _) => apply if_appends
  | |- appends (match ?x with _ => _ end) => destruct x
  | |- appends (let '(_, _) := ?x in _) => destruct x
  | |- _ => eauto with appends
  end).

Lemma table_exists_appends (t : string) : appends (table_exists t).
Proof. unfold table_exists. solve_appends. Qed.

Lemma column_probe_appends (sql column : string) : appends (column_probe sql column).
Proof. unfold column_probe. solve_appends. Qed.

#[local] Hint Resolve table_exists_appends column_probe_appends : appends.

Lemma check_users_table_schema_appends : appends check_users_table_schema.
Proof. unfold check_users_table_schema. solve_appends. Qed.

Lemma migrate_users_table_appends : appends migrate_users_table.
Proof.
  unfold migrate_users_table. solve_appends. apply check_users_table_schema_appends.
Qed.

Lemma create_table_step_appends (t st : string) (acc : counters) :
  appends (create_table_step t st acc).
Proof. destruct acc as [[c s] errs]. unfold create_table_step. solve_appends. Qed.

Lemma create_each_appends (tables : list (string * string)) :
  forall acc, appends (create_each tables acc).
Proof.
  induction tables as [|[t st] rest IH]; cbn [create_each]; intros acc.
  - apply ret_appends.
  - apply bind_appends; [apply create_table_step_appends|auto].
Qed.

Lemma insert_loop_appends (statements : list string) :
  forall tn errors, appends (insert_loop statements tn errors).
Proof.
  induction statements as [|st rest IH]; cbn [insert_loop]; intros tn errors.
  - apply ret_appends.
  - destruct (starts_with "INSERT INTO" (upper st)); [|auto].
    destruct (split_on "INSERT INTO" st) as [|x [|after l]].
    + destruct (insert_handler _ tn errors); auto using ret_appends.
    + destruct (insert_handler _ tn errors); auto using ret_appends.
    + apply bind_appends.
      * apply try_except_appends; [|intros; apply ret_appends].
        apply bind_appends; [apply execute_appends|intros; apply ret_appends].
      * intros [errs|errs]; auto using ret_appends.
Qed.

Lemma create_tables_appends : appends create_tables.
Proof.
  unfold create_tables.
  destruct schema_file as [content|e]; [|apply create_each_appends].
  destruct (parse_sql_statements content) as [|st sts]; [apply create_each_appends|].
  apply bind_appends; [apply create_each_appends|].
  intros [[c s] errs]. apply bind_appends; [apply insert_loop_appends|].
  intros. apply ret_appends.
Qed.

Lemma verify_each_appends (tables : list string) :
  forall missing, appends (verify_each tables missing).
Proof.
  induction tables as [|t rest IH]; cbn [verify_each]; intros missing.
  - apply ret_appends.
  - apply bind_appends; [apply table_exists_appends|auto].
Qed.

#[local] Hint Resolve verify_each_appends : appends.

Lemma verify_database_appends : appends verify_database.
Proof. unfold verify_database. solve_appends. Qed.


Lemma count_rows_safe_appends (table where_ : string) :
  appends (count_rows_safe table where_).
Proof.
  unfold count_rows_safe, count_native, count_fallback. solve_appends.
Qed.

Lemma seed_each_appends (cats : list (string * string * string * string * string)) :
  forall n, appends (seed_each cats n).
Proof.
  induction cats as [|[[[[cat_id name] icon] color] keywords] rest IH];
    cbn [seed_each]; intros n.
  - apply ret_appends.
  - apply bind_appends; [|auto]. solve_appends.
Qed.

#[local] Hint Resolve count_rows_safe_appends seed_each_appends : appends.

Lemma seed_default_categories_appends : appends seed_default_categories.
Proof. unfold seed_default_categories. solve_appends. Qed.

Lemma create_default_user_appends :
  appends create_default_user_body -> appends create_default_user.
Proof. intros Hb. unfold create_default_user. solve_appends. Qed.

#[local] Hint Resolve seed_default_categories_appends create_default_user_appends
  check_users_table_schema_appends migrate_users_table_appends create_each_appends
  create_tables_appends verify_database_appends : appends.

Lemma finish_initialization_appends (seed_categories create_default_user_flag : bool)
    (r : report) :
  appends create_default_user_body ->
  appends (finish_initialization seed_categories create_default_user_flag r).
Proof. intros Hb. unfold finish_initialization. solve_appends. Qed.

#[local] Hint Resolve finish_initialization_appends : appends.


(** ** The users-table schema check *)

Lemma executes_first_execute (x : string) : executes_first x (execute x).
Proof.
  intros w o w' H. unfold execute in H. destruct (execute_db (gw w) x) as [o1 s1].
  injection H as _ <-. exists []. reflexivity.
Qed.

Lemma executes_first_bind {A B} (x : string) (m : M A) (k : A -> M B) :
  executes_first x m -> (forall a, appends (k a)) -> executes_first x (bind m k).
Proof.
  intros Hm Hk w o w' H. unfold bind in H.
  destruct (m w) as [[a|e] w1] eqn:E.
  - destruct (Hm _ _ _ E) as [l1 H1]. destruct (Hk a _ _ _ H) as [l2 H2].
    exists (app l1 l2). rewrite H2, H1, <- app_assoc. reflexivity.
  - injection H as _ <-. eapply Hm. eassumption.
Qed.

Lemma executes_first_try_except {A} (x : string) (m : M A) (h : py_exc -> M A) :
  executes_first x m -> (forall e, appends (h e)) -> executes_first x (try_except m h).
Proof.
  intros Hm Hh w o w' H. unfold try_except in H.
  destruct (m w) as [[a|e] w1] eqn:E.
  - injection H as _ <-. eapply Hm. eassumption.
  - destruct (Hm _ _ _ E) as [l1 H1]. destruct (Hh e _ _ _ H) as [l2 H2].
    exists (app l1 l2). rewrite H2, H1, <- app_assoc. reflexivity.
Qed.

Lemma executes_first_guard {A} (x : string) (m : M A) (r : report) (k : A -> M report) :
  executes_first x m -> (forall a, appends (k a)) -> executes_first x (guard m r k).
Proof.
  intros Hm Hk w o w' H. unfold guard in H.
  destruct (m w) as [[a|e] w1] eqn:E.
  - destruct (Hm _ _ _ E) as [l1 H1]. destruct (Hk a _ _ _ H) as [l2 H2].
    exists (app l1 l2). rewrite H2, H1, <- app_assoc. reflexivity.
  - injection H as _ <-. eapply Hm. eassumption.
Qed.

(** [migrate_users_table] starts by dropping the table. *)
Lemma migrate_users_table_drops_first : executes_first "DROP TABLE users" migrate_users_table.
Proof.
  unfold migrate_users_table.
  apply executes_first_try_except; [|intros; apply ret_appends].
  apply executes_first_bind; [|solve_appends].
  apply executes_first_try_except; [apply executes_first_execute|solve_appends].
Qed.

Lemma table_exists_ok (t : string) (w : world) (rs : list row) (s1 : St) :
  query_db (gw w) (table_probe_sql t) = (Ok rs, s1) ->
  table_exists t w = (Ok true, World s1 (exec_log w)).
Proof. intros H. unfold table_exists, try_except, bind, query. rewrite H. reflexivity. Qed.

Lemma column_probe_ok (sql column : string) (w : world) (rs : list row) (s1 : St) :
  query_db (gw w) sql = (Ok rs, s1) ->
  column_probe sql column w = (Ok true, World s1 (exec_log w)).
Proof. intros H. unfold column_probe, try_except, bind, query. rewrite H. reflexivity. Qed.

Lemma column_probe_raise (sql column : string) (w : world) (e : py_exc) (s1 : St) :
  query_db (gw w) sql = (Raise e, s1) ->
  column_probe sql column w = (Ok false, World s1 (exec_log w)).
Proof.
  intros H. unfold column_probe, try_except, bind, query. rewrite H.
  cbv beta iota zeta. destruct (_ && _); reflexivity.
Qed.

Lemma column_probe_log (sql column : string) (w : world) :
  exists b, column_probe sql column w = (Ok b, World (snd (query_db (gw w) sql)) (exec_log w)).
Proof.
  destruct (query_db (gw w) sql) as [[rs|e] s1] eqn:E.
  - exists true. apply (column_probe_ok _ _ _ _ _ E).
  - exists false. apply (column_probe_raise _ _ _ _ _ E).
Qed.

(** A users table that answers the probe: each column flag is [False]
    when its own probe raised, and a migration is due unless both flags
    are [True]. *)
Lemma check_users_flags (w : world) (rows : list row) (s1 : St) :
  query_db (gw w) (table_probe_sql "users") = (Ok rows, s1) ->
  exists sc w', check_users_table_schema w = (Ok sc, w')
    /\ exec_log w' = exec_log w
    /\ (forall e s2, query_db s1 email_probe_sql = (Raise e, s2) ->
          sc_has_email sc = false)
    /\ (forall e s3,
          query_db (snd (query_db s1 email_probe_sql)) password_probe_sql = (Raise e, s3) ->
          sc_has_password_hash sc = false)
    /\ sc_needs_migration sc = negb (sc_has_email sc && sc_has_password_hash sc).
Proof.
  intros Hu. unfold check_users_table_schema, try_except, bind.
  rewrite (table_exists_ok _ _ _ _ Hu). cbv beta iota zeta. cbn [negb].
  destruct (query_db s1 email_probe_sql) as [[rs|e] s2] eqn:He;
    [rewrite (column_probe_ok _ _ (World s1 (exec_log w)) _ _ He)
    |rewrite (column_probe_raise _ _ (World s1 (exec_log w)) _ _ He)];
    cbv beta iota zeta; cbn [exec_log snd];
    (destruct (query_db s2 password_probe_sql) as [[rs'|e'] s3] eqn:Hp;
     [rewrite (column_probe_ok _ _ (World s2 (exec_log w)) _ _ Hp)
     |rewrite (column_probe_raise _ _ (World s2 (exec_log w)) _ _ Hp)]);
    cbn; eexists _, _; (split; [reflexivity|]); cbn;
    (split; [reflexivity|]);
    (split; [intros ? ? H; first [reflexivity | congruence]|]);
    (split; [intros ? ? H; first [reflexivity | congruence]|]);
    reflexivity.
Qed.

(** A users table that answers the probe, with one column probe failing,
    for whatever reason: the check reports a migration due. *)
Lemma check_users_failed_probe (w : world) (rows : list row) (s1 : St) :
  query_db (gw w) (table_probe_sql "users") = (Ok rows, s1) ->
  ((exists e s2, query_db s1 email_probe_sql = (Raise e, s2))
   \/ (exists rs e s2 s3, query_db s1 email_probe_sql = (Ok rs, s2)
                          /\ query_db s2 password_probe_sql = (Raise e, s3))) ->
  exists sc w', check_users_table_schema w = (Ok sc, w')
    /\ exec_log w' = exec_log w
    /\ sc_needs_migration sc = true
    /\ (forall e s2, query_db s1 email_probe_sql = (Raise e, s2) ->
          sc_has_email sc = false)
    /\ (forall e s3,
          query_db (snd (query_db s1 email_probe_sql)) password_probe_sql = (Raise e, s3) ->
          sc_has_password_hash sc = false).
Proof.
  intros Hu Hcase.
  destruct (check_users_flags w rows s1 Hu) as (sc & w' & Ec & Hl & Hem & Hpw & Hm).
  exists sc, w'. split; [exact Ec|]. split; [exact Hl|].
  split; [|split; assumption].
  rewrite Hm. destruct Hcase as [(e & s2 & He)|(rs & e & s2 & s3 & He & Hp)].
  - rewrite (Hem e s2 He). reflexivity.
  - assert (Hp' : query_db (snd (query_db s1 email_probe_sql)) password_probe_sql
                  = (Raise e, s3)) by (rewrite He; exact Hp).
    rewrite (Hpw e s3 Hp'), andb_false_r. reflexivity.
Qed.


Lemma guard_ok {A} (m : M A) (r : report) (k : A -> M report) (w w' : world) (a : A) :
  m w = (Ok a, w') -> guard m r k w = k a w'.
Proof. intros H. unfold guard. rewrite H. reflexivity. Qed.

Lemma finish_initialization_total (seed_categories create_default_user_flag : bool)
    (r : report) : total (finish_initialization seed_categories create_default_user_flag r).
Proof.
  intros w. destruct (finish_initialization_spec seed_categories create_default_user_flag r w)
    as (r' & w' & E & _). eauto.
Qed.

Lemma guard_total {A} (m : M A) (r : report) (k : A -> M report) :
  total m -> (forall a, total (k a)) -> total (guard m r k).
Proof.
  intros Hm Hk w. destruct (Hm w) as (a & w1 & E). rewrite (guard_ok _ _ _ _ _ _ E). apply Hk.
Qed.

#[local] Hint Resolve finish_initialization_total : total.

Lemma initialize_database_total (seed_categories create_default_user_flag : bool) :
  total (initialize_database seed_categories create_default_user_flag).
Proof.
  unfold initialize_database.
  repeat (intros; match goal with
  | |- total (guard _ _ _) => apply guard_total
  | |- total (match ?x with _ => _ end) => destruct x
  | |- total (if _ then _ else _) => apply if_total
  | |- _ => solve_total
  end).
Qed.

(** C9: when the users table answers its probe but one of the two column
    probes fails, for any reason (a connectivity fault as much as a missing
    column), the flag of the probe that failed is [False] (the email flag
    when the email probe raised, the password-hash flag when the
    password-hash probe raised), the check reports a needed migration,
    and [initialize_database] goes on to the migration, whose first
    statement, and the first statement the whole call executes, is
    [DROP TABLE users].  The body of [create_default_user] is only assumed
    to add statements at the end of the log. *)
Theorem failed_probe_forces_migration (seed_categories create_default_user_flag : bool)
    (w : world) (rows : list row) (s1 : St) :
  appends create_default_user_body ->
  query_db (gw w) (table_probe_sql "users") = (Ok rows, s1) ->
  ((exists e s2, query_db s1 email_probe_sql = (Raise e, s2))
   \/ (exists rs e s2 s3, query_db s1 email_probe_sql = (Ok rs, s2)
                          /\ query_db s2 password_probe_sql = (Raise e, s3))) ->
  (exists sc w1, check_users_table_schema w = (Ok sc, w1)
     /\ sc_needs_migration sc = true
     /\ (forall e s2, query_db s1 email_probe_sql = (Raise e, s2) ->
           sc_has_email sc = false)
     /\ (forall e s3,
           query_db (snd (query_db s1 email_probe_sql)) password_probe_sql
             = (Raise e, s3) ->
           sc_has_password_hash sc = false))
  /\ exists r w' l,
       initialize_database seed_categories create_default_user_flag w = (Ok r, w')
       /\ exec_log w' = app (exec_log w) ("DROP TABLE users" :: l).
Proof.
  intros Hb Hu Hcase.
  destruct (check_users_failed_probe w rows s1 Hu Hcase)
    as (sc & w1 & Ec & Hl & Hm & Hem & Hpw).
  split; [exists sc, w1; auto|].
  destruct (initialize_database_total seed_categories create_default_user_flag w)
    as (r & w' & E).
  exists r, w'. pose proof E as E0.
  unfold initialize_database in E.
  rewrite (guard_ok _ _ _ w w true eq_refl) in E. cbv beta in E.
  rewrite (guard_ok _ _ _ _ _ _ Ec) in E. cbv beta in E. rewrite Hm in E.
  match type of E with guard ?m ?rr ?k ?ww = _ =>
    assert (Hx : executes_first "DROP TABLE users" (guard m rr k)) end.
  { apply executes_first_guard.
    - apply executes_first_bind; [apply migrate_users_table_drops_first|].
      intros. apply ret_appends.
    - solve_appends. }
  destruct (Hx _ _ _ E) as [l Hl']. exists l. split; [exact E0|].
  rewrite Hl', Hl. reflexivity.
Qed.


(** ** A second initialization *)

Lemma keeps_log_ret {A} (a : A) : keeps_log (ret a).
Proof. intros w o w' H. injection H as _ <-. reflexivity. Qed.

Lemma keeps_log_raise {A} (e : py_exc) : keeps_log (@raise A e).
Proof. intros w o w' H. injection H as _ <-. reflexivity. Qed.

Lemma keeps_log_lift {A} (o0 : outcome A) : keeps_log (lift o0).
Proof. intros w o w' H. injection H as _ <-. reflexivity. Qed.

Lemma keeps_log_query (sql : string) : keeps_log (query sql).
Proof.
  intros w o w' H. unfold query in H. destruct (query_db (gw w) sql) as [o1 s1].
  injection H as _ <-. reflexivity.
Qed.

Lemma keeps_log_bind {A B} (m : M A) (k : A -> M B) :
  keeps_log m -> (forall a, keeps_log (k a)) -> keeps_log (bind m k).
Proof.
  intros Hm Hk w o w' H. unfold bind in H.
  destruct (m w) as [[a|e] w1] eqn:E.
  - rewrite (Hk a _ _ _ H). eapply Hm. eassumption.
  - injection H as _ <-. eapply Hm. eassumption.
Qed.

Lemma keeps_log_try_except {A} (m : M A) (h : py_exc -> M A) :
  keeps_log m -> (forall e, keeps_log (h e)) -> keeps_log (try_except m h).
Proof.
  intros Hm Hh w o w' H. unfold try_except in H.
  destruct (m w) as [[a|e] w1] eqn:E.
  - injection H as _ <-. eapply Hm. eassumption.
  - rewrite (Hh e _ _ _ H). eapply Hm. eassumption.
Qed.

Lemma keeps_log_count_rows_safe (table where_ : string) :
  keeps_log (count_rows_safe table where_).
Proof.
  unfold count_rows_safe, count_native, count_fallback.
  repeat (intros; match goal with
  | |- keeps_log (try_except _ _) => apply keeps_log_try_except
  | |- keeps_log (bind _ _) => apply keeps_log_bind
  | |- keeps_log (if ?b then _ else _) => destruct b
  | |- keeps_log (match ?x with _ => _ end) => destruct x
  | |- _ => solve [auto using keeps_log_ret, keeps_log_raise, keeps_log_lift,
                   keeps_log_query]
  end).
Qed.

Section Rerun.

(** [Inv] describes the gateway after a completed first initialization. *)
Variable Inv : St -> Prop.

(** Reads leave it in place, and so do the INSERT statements of the
    schema file (whatever they do to the rows). *)
Hypothesis query_keeps : forall s sql, Inv s -> Inv (snd (query_db s sql)).
Hypothesis insert_keeps : forall s st,
  Inv s -> starts_with "INSERT INTO" (upper st) = true -> Inv (snd (execute_db s st)).

(** The seven tables exist, the users table has its two columns, and the
    categories table is not empty as [count_rows_safe] sees it. *)
Hypothesis tables_present : forall s t,
  Inv s -> In t required_tables -> exists rs, fst (query_db s (table_probe_sql t)) = Ok rs.
Hypothesis users_columns_present : forall s, Inv s ->
  (exists rs, fst (query_db s email_probe_sql) = Ok rs)
  /\ (exists rs, fst (query_db s password_probe_sql) = Ok rs).
Hypothesis categories_present : forall w, Inv (gw w) ->
  exists n w', count_rows_safe "categories" "" w = (Ok n, w') /\ (0 < n)%Z.

(** The schema file, when it is used, creates the seven tables. *)
Hypothesis schema_file_tables : forall content, schema_file = Ok content ->
  parse_sql_statements content = []
  \/ map extract_table_name_from_create (create_statements (parse_sql_statements content))
     = required_tables.
















End Rerun.


(** ** Further properties of the aggregate helper *)

Lemma column_values_length (col : string) (rows : list row) :
  length (column_values col rows)
  = length (filter (fun r => match get r col with
                             | Some v => negb (is_none v)
                             | None => false
                             end) rows).
Proof.
  induction rows as [|r rows IH]; [reflexivity|].
  unfold column_values in *. cbn [flat_map filter]. rewrite length_app.
  destruct (get r col) as [v|]; [destruct (is_none v)|]; cbn [length negb]; lia.
Qed.

(** [_calculate_aggregate] with COUNT: [COUNT(col)] is the number of rows
    whose [col] is present and not [None], and [COUNT( * )] is the number
    of rows.  The function name is case-insensitive. *)
Theorem calculate_count_counts_present (func col : string) (rows : list row) :
  String.eqb (upper func) "COUNT" = true ->
  calculate_aggregate func col rows
    = Ok (VInt (Z.of_nat
        (if String.eqb col "*" then length rows
         else length (filter (fun r => match get r col with
                                       | Some v => negb (is_none v)
                                       | None => false
                                       end) rows))))
  /\ calculate_aggregate func "*" rows = Ok (VInt (Z.of_nat (length rows))).
Proof.
  intros H. unfold calculate_aggregate. rewrite H. cbn zeta.
  split; [|reflexivity].
  destruct (String.eqb col "*"); [reflexivity|].
  rewrite column_values_length. reflexivity.
Qed.

Lemma upper_eqb_true (func F : string) :
  String.eqb (upper func) F = true -> upper func = F.
Proof. apply String.eqb_eq. Qed.

(** [_calculate_aggregate] with a function name other than COUNT, SUM,
    AVG, MIN and MAX (after upper-casing) raises [ValueError] only when
    there is a value to aggregate; over no rows, or a column that is
    missing or null in every row, it returns [None]. *)
Theorem calculate_unsupported_function (func col : string) (rows : list row) :
  ~ In (upper func) ["COUNT"; "SUM"; "AVG"; "MIN"; "MAX"] ->
  calculate_aggregate func col rows =
    match (if String.eqb col "*" then map VDict rows else column_values col rows) with
    | [] => Ok VNone
    | _ :: _ => Raise (PyExc "ValueError" ("Unsupported aggregate function: " ++ upper func))
    end.
Proof.
  intros H. unfold calculate_aggregate. cbn zeta.
  assert (N : forall F, In F ["COUNT"; "SUM"; "AVG"; "MIN"; "MAX"] ->
                        String.eqb (upper func) F = false).
  { intros F HF. apply String.eqb_neq. intros E. apply H. rewrite E. exact HF. }
  rewrite (N "COUNT"), (N "SUM"), (N "AVG"), (N "MIN"), (N "MAX"); cbn; auto 6.
Qed.

Lemma sum_terms_dicts (rows : list row) : sum_terms (map VDict rows) = Ok [].
Proof. induction rows as [|r rows IH]; [reflexivity|]. exact IH. Qed.

(** [SUM( * )] and [AVG( * )] aggregate whole rows, which are dicts: over at
    least one row, SUM is the integer 0 and AVG is [None]. *)
Theorem calculate_star_sum_avg (rows : list row) :
  rows <> [] ->
  calculate_aggregate "sum" "*" rows = Ok (VInt 0)
  /\ calculate_aggregate "avg" "*" rows = Ok VNone.
Proof.
  intros H. destruct rows as [|r rows]; [contradiction|].
  unfold calculate_aggregate. cbn - [map sum_terms].
  rewrite sum_terms_dicts. split; reflexivity.
Qed.

Lemma Qltb_iff (x y : Q) : Qltb x y = true <-> (x < y)%Q.
Proof.
  unfold Qltb. rewrite negb_true_iff. split.
  - intros H. apply Qnot_le_lt. intros H'. apply Qle_bool_iff in H'. congruence.
  - intros H. destruct (Qle_bool y x) eqn:E; [|reflexivity].
    apply Qle_bool_iff in E. exfalso. apply (Qlt_not_le _ _ H E).
Qed.

(** ** Further properties of the HAVING evaluator *)

(** A group whose HAVING column is missing, or holds [None], is compared
    as if the column held the integer 0. *)
Theorem having_missing_column_as_zero (having : string) (r : row)
    (col op ip fp : string) :
  match_having (strip having) = Some (col, op, (ip, fp)) ->
  (get r col = None \/ get r col = Some VNone) ->
  evaluate_having having r = evaluate_having having [(col, VInt 0)].
Proof.
  intros Hm Hc. unfold evaluate_having. rewrite Hm. unfold get_or.
  cbn [get]. rewrite String.eqb_refl.
  destruct Hc as [Hc|Hc]; rewrite Hc; reflexivity.
Qed.


(** ** Ordering of the grouped results *)

Lemma key_ltb_asym (a b : value) : key_ltb a b = true -> key_ltb b a = false.
Proof.
  unfold key_ltb. destruct (num_of a) as [x|] eqn:Ea, (num_of b) as [y|] eqn:Eb.
  - intros H. apply Qltb_iff in H. destruct (Qltb y x) eqn:E; [|reflexivity].
    apply Qltb_iff in E. exfalso. apply (Qlt_irrefl x). eapply Qlt_trans; eauto.
  - destruct a; try discriminate; destruct b; try discriminate.
  - destruct a; try discriminate; destruct b; try discriminate.
  - destruct a, b; try discriminate.
    unfold str_ltb. rewrite String.compare_antisym.
    destruct (String.compare s0 s); cbn; congruence.
Qed.

Lemma insert_by_hd (before : value -> value -> bool) (x y : value * row)
    (l : list (value * row)) :
  insert_order before y x -> HdRel (insert_order before) y l ->
  HdRel (insert_order before) y (insert_by before x l).
Proof.
  intros Hyx Hl. destruct l as [|z l]; cbn.
  - constructor. exact Hyx.
  - destruct (before (fst x) (fst z)); constructor; [exact Hyx|].
    inversion Hl; assumption.
Qed.

Lemma insert_by_sorted (before : value -> value -> bool)
    (asym : forall a b, before a b = true -> before b a = false)
    (x : value * row) (l : list (value * row)) :
  Sorted (insert_order before) l -> Sorted (insert_order before) (insert_by before x l).
Proof.
  induction 1 as [|y l Hl IH Hhd]; cbn.
  - repeat constructor.
  - destruct (before (fst x) (fst y)) eqn:E.
    + constructor; [constructor; assumption|]. constructor. unfold insert_order.
      apply asym. exact E.
    + constructor; [exact IH|]. apply insert_by_hd; [exact E|exact Hhd].
Qed.

Lemma stable_sort_sorted (before : value -> value -> bool)
    (asym : forall a b, before a b = true -> before b a = false)
    (l : list (value * row)) :
  Sorted (insert_order before) (stable_sort before l).
Proof.
  unfold stable_sort.
  assert (G : forall acc, Sorted (insert_order before) acc ->
                Sorted (insert_order before)
                  (fold_left (fun acc x => insert_by before x acc) l acc)).
  { induction l as [|x l IH]; cbn; intros acc Hacc; [exact Hacc|].
    apply IH. apply insert_by_sorted; assumption. }
  apply G. constructor.
Qed.

Lemma Sorted_map_rel {A B} (R : A -> A -> Prop) (R' : B -> B -> Prop) (f : A -> B)
    (l : list A) :
  (forall a b, R a b -> R' (f a) (f b)) -> Sorted R l -> Sorted R' (map f l).
Proof.
  intros HR. induction 1 as [|a l Hl IH Hhd]; cbn; constructor; [exact IH|].
  destruct Hhd; cbn; constructor. apply HR. assumption.
Qed.

Lemma keyed_sorted_map_snd (sort_col : string) (rev : bool) (l : list (value * row)) :
  Forall (fun p => fst p = get_or (snd p) sort_col (VInt 0)) l ->
  Sorted (insert_order (fun a b => if rev then key_ltb b a else key_ltb a b)) l ->
  Sorted (key_sorted sort_col rev) (map snd l).
Proof.
  intros Hk Hs. induction Hs as [|p l Hl IH Hhd]; cbn; constructor.
  - apply IH. inversion Hk; assumption.
  - destruct Hhd as [|q l' Hpq]; cbn; constructor.
    inversion Hk as [|? ? Hp Hk']; subst. inversion Hk' as [|? ? Hq _]; subst.
    unfold insert_order in Hpq. unfold key_sorted.
    rewrite <- Hp, <- Hq. destruct rev; exact Hpq.
Qed.

(** The sort of the grouped fallback of [aggregate]: when it succeeds, it
    returns the same rows, ordered by the sort column (missing keys read
    as 0): ascending, or descending with [DESC]. *)
Lemma sort_results_key_sorted (sort_col : string) (rev : bool) (rs rs' : list row) :
  sort_results sort_col rev rs = Ok rs' -> Sorted (key_sorted sort_col rev) rs'.
Proof.
  intros H.
  unfold sort_results in H.
  destruct rs as [|r0 [|r1 rs]]; try (injection H as <-; repeat constructor).
  destruct (_ || _); [|discriminate]. injection H as <-.
  apply keyed_sorted_map_snd.
  - apply Forall_forall. intros p Hp.
    apply (Permutation_in _ (Permutation_sym (stable_sort_perm _ _))) in Hp.
    destruct Hp as [<-|[<-|Hp]]; [reflexivity|reflexivity|].
    apply in_map_iff in Hp. destruct Hp as (r & <- & _). reflexivity.
  - apply stable_sort_sorted. intros a b Hab. destruct rev; apply key_ltb_asym; exact Hab.
Qed.

(** The sort of the grouped fallback of [aggregate]: when it succeeds, it
    returns the same rows, ordered by the sort column (missing keys read
    as 0): ascending, or descending with [DESC]. *)
Theorem sort_results_sorted (sort_col : string) (rev : bool) (rs rs' : list row) :
  sort_results sort_col rev rs = Ok rs' ->
  Permutation rs rs' /\ Sorted (key_sorted sort_col rev) rs'.
Proof.
  intros H. split; [exact (sort_results_perm _ _ _ _ H)|].
  exact (sort_results_key_sorted _ _ _ _ H).
Qed.

(** [get_category_spending_summary]: when the native grouped query fails
    and the summary is still produced, it comes from the in-memory
    fallback, and its rows are ordered by [sum_amount], largest first. *)
Theorem category_spending_summary_sorted (user_id start_date end_date : string)
    (w w' : world) (res : list row) (e : py_exc) (s : St) :
  query_db (gw w)
    (aggregate_native_sql "transactions" category_spending_aggregates
       (category_spending_where user_id start_date end_date)
       (Some "category_id") "" "sum_amount DESC") = (Raise e, s) ->
  get_category_spending_summary user_id start_date end_date w = (Ok res, w') ->
  Sorted (key_sorted "sum_amount" true) res.
Proof.
  intros Hq H. unfold get_category_spending_summary, aggregate_safe, try_except, query in H.
  rewrite Hq in H.
  destruct (is_aggregate_error _ _); [|discriminate].
  unfold aggregate_fallback, bind, query, lift in H.
  destruct (query_db _ _) as [[rows|e'] s'] in H; [|discriminate].
  injection H as Hr _. unfold aggregate_rows in Hr.
  destruct rows as [|r0 rows]; [injection Hr as <-; constructor|].
  cbn [active_group String.eqb Ascii.eqb Bool.eqb] in Hr.
  destruct (group_rows _ _ _) as [groups|]; cbn [obind] in Hr; [|discriminate].
  destruct (group_results _ _ _ _) as [results|]; cbn [obind] in Hr; [|discriminate].
  exact (sort_results_key_sorted _ _ _ _ Hr).
Qed.


(** ** Capability detection *)

Lemma bind_ok_eq {A B} (m : M A) (k : A -> M B) (w w1 : world) (a : A) :
  m w = (Ok a, w1) -> bind m k w = k a w1.
Proof. intros E. unfold bind. rewrite E. reflexivity. Qed.

Lemma probe_ok_ok (q : string -> M (list row)) (sql : string) (w : world) :
  exists b w', probe_ok q sql w = (Ok b, w').
Proof.
  unfold probe_ok, try_except, bind, ret.
  destruct (q sql w) as [[x|e] w1]; eauto.
Qed.

Lemma probe_ok_raise (e : py_exc) (sql : string) (w : world) :
  probe_ok (fun _ => raise e) sql w = (Ok false, w).
Proof. reflexivity. Qed.

Lemma keeps_log_query_with (f : St -> string -> outcome (list row) * St) (sql : string) :
  keeps_log (query_with f sql).
Proof.
  intros w o w' H. unfold query_with in H. destruct (f (gw w) sql) as [o1 s1].
  injection H as _ <-. reflexivity.
Qed.

Lemma keeps_log_probe_ok (q : string -> M (list row)) (sql : string) :
  keeps_log (q sql) -> keeps_log (probe_ok q sql).
Proof.
  intros Hq. unfold probe_ok. apply keeps_log_try_except.
  - apply keeps_log_bind; [exact Hq|intros; apply keeps_log_ret].
  - intros; apply keeps_log_ret.
Qed.

Ltac probe_steps H :=
  repeat first
    [ rewrite (bind_ok_eq _ _ _ _ _ (probe_ok_raise _ _ _)) in H
    | match type of H with
      | bind (probe_ok ?q ?s) _ ?w = _ =>
          let b := fresh "b" in let w1 := fresh "w" in let E := fresh "E" in
          destruct (probe_ok_ok q s w) as (b & w1 & E);
          rewrite (bind_ok_eq _ _ _ _ _ E) in H
      end ].

(** [detect_pesadb_capabilities] never raises and executes nothing; it
    reports [min] and [max] together, and when a [query_func] is passed
    both are [False]: the MIN/MAX probe calls the name [query_db], which
    the function only binds when no [query_func] is given. *)
Theorem detect_capabilities_safe
    (query_func : option (St -> string -> outcome (list row) * St)) (w : world) :
  exists c w', detect_pesadb_capabilities query_func w = (Ok c, w')
    /\ exec_log w' = exec_log w
    /\ cap_min c = cap_max c
    /\ match query_func with Some _ => cap_min c = false | None => True end.
Proof.
  assert (Hk : keeps_log (detect_pesadb_capabilities query_func)).
  { unfold detect_pesadb_capabilities.
    repeat (apply keeps_log_bind; [apply keeps_log_probe_ok;
      destruct query_func; auto using keeps_log_query, keeps_log_query_with,
                                     keeps_log_raise|intros]).
    apply keeps_log_ret. }
  destruct (detect_pesadb_capabilities query_func w) as [o w'] eqn:H.
  pose proof (Hk _ _ _ H) as Hl. pose proof H as H'.
  unfold detect_pesadb_capabilities in H'. destruct query_func as [f|]; cbv zeta in H';
    probe_steps H'; unfold ret in H'; injection H' as Ho _; subst o;
    eexists; exists w'; repeat split; assumption.
Qed.

(** ** The service counters *)

(** The counters of the service ([get_user_count], [count_categories],
    [count_transactions], [count_duplicate_logs]) execute nothing; an
    error that reads as a missing table never escapes them, and a result
    other than 0 is the count [count_rows_safe] returned. *)
Theorem count_or_zero_spec (table where_ : string) (w w' : world) (o : outcome Z) :
  count_or_zero table where_ w = (o, w') ->
  exec_log w' = exec_log w
  /\ (forall e, o = Raise e -> is_table_not_found_error e = false)
  /\ (forall n, o = Ok n -> n = 0%Z \/ count_rows_safe table where_ w = (Ok n, w')).
Proof.
  intros H. split.
  - refine (keeps_log_try_except _ _ (keeps_log_count_rows_safe table where_) _ _ _ _ H).
    intros e. destruct (is_table_not_found_error e); auto using keeps_log_ret, keeps_log_raise.
  - unfold count_or_zero, try_except in H.
    destruct (count_rows_safe table where_ w) as [[n|e] w1] eqn:E.
    + injection H as <- <-. split; [discriminate|]. intros n' [= <-]. right. reflexivity.
    + destruct (is_table_not_found_error e) eqn:Et; unfold ret, raise in H;
        injection H as <- <-.
      * split; [discriminate|]. intros n [= <-]. left. reflexivity.
      * split; [|discriminate]. intros e' [= <-]. exact Et.
Qed.

(** [get_user_count] on a database without a [users] table: when the
    native COUNT query fails with an error that reads as a missing table
    (and not as a COUNT syntax error), the count is 0 and nothing else is
    queried. *)
Theorem get_user_count_missing_table (w : world) (e : py_exc) (s1 : St) :
  query_db (gw w) (count_native_sql "users" "") = (Raise e, s1) ->
  is_table_not_found_error e = true ->
  is_count_error (lower (exc_str e)) = false ->
  get_user_count w = (Ok 0%Z, World s1 (exec_log w)).
Proof.
  intros Hq Ht Hc. unfold get_user_count, count_or_zero, count_rows_safe, count_native,
    try_except, bind, query.
  rewrite Hq, Hc. cbn [raise]. rewrite Ht. reflexivity.
Qed.

(** ** Escaping of string values *)

Lemma str_append_assoc (a b c : string) : (a ++ b) ++ c = a ++ (b ++ c).
Proof. induction a as [|x a IH]; cbn; [reflexivity|]. rewrite IH. reflexivity. Qed.

Lemma str_append_nil (a : string) : a ++ "" = a.
Proof. induction a as [|x a IH]; cbn; [reflexivity|]. rewrite IH. reflexivity. Qed.

Lemma rev_str_acc (s acc : string) : rev_str s acc = rev_str s "" ++ acc.
Proof.
  revert acc. induction s as [|c s IH]; intros acc; cbn; [reflexivity|].
  rewrite IH, (IH (String c "")), str_append_assoc. reflexivity.
Qed.

Lemma split_on_aux_cons (fuel : nat) (sep s cur : string) :
  exists x l, split_on_aux fuel sep s cur = x :: l.
Proof.
  revert s cur. induction fuel as [|f IH]; intros s cur; cbn; [eauto|].
  destruct s as [|c r]; [eauto|]. destruct (starts_with sep (String c r)); eauto.
Qed.

Lemma join_cons (sep x : string) (l : list string) :
  l <> [] -> join sep (x :: l) = x ++ sep ++ join sep l.
Proof. destruct l; [congruence|reflexivity]. Qed.

Lemma split_on_quote_join (fuel : nat) (s cur : string) :
  String.length s < fuel ->
  join (sq ++ sq) (split_on_aux fuel sq s cur) = rev_str cur "" ++ double_quotes s.
Proof.
  revert s cur. induction fuel as [|f IH]; intros s cur Hf; [cbn in Hf; lia|].
  destruct s as [|c r]; cbn [split_on_aux].
  - cbn [join double_quotes]. rewrite str_append_nil. reflexivity.
  - cbn in Hf.
    assert (Hs : starts_with sq (String c r) = Ascii.eqb (ascii_of_nat 39) c)
      by (unfold sq; cbn; apply andb_true_r).
    rewrite Hs. cbn [double_quotes]. rewrite (Ascii.eqb_sym c).
    destruct (Ascii.eqb (ascii_of_nat 39) c) eqn:Ec.
    + apply Ascii.eqb_eq in Ec. subst c.
      change (drop_prefix sq (String (ascii_of_nat 39) r)) with r.
      destruct (split_on_aux_cons f sq r "") as (x & l & Ex).
      rewrite join_cons by (rewrite Ex; discriminate).
      rewrite IH by lia. reflexivity.
    + rewrite IH by lia. cbn [rev_str].
      rewrite (rev_str_acc cur (String c "")), str_append_assoc. reflexivity.
Qed.

Lemma replace_quote (s : string) : replace sq (sq ++ sq) s = double_quotes s.
Proof.
  unfold replace, split_on. rewrite split_on_quote_join by lia. reflexivity.
Qed.

Lemma read_double_quotes (s t : string) :
  read_sql_quoted (double_quotes s ++ t)
  = option_map (fun p => (s ++ fst p, snd p)) (read_sql_quoted t).
Proof.
  induction s as [|c s IH]; cbn [double_quotes append].
  - destruct (read_sql_quoted t) as [[x y]|]; reflexivity.
  - destruct (Ascii.eqb c (ascii_of_nat 39)) eqn:Ec.
    + apply Ascii.eqb_eq in Ec. subst c. cbn. rewrite IH.
      destruct (read_sql_quoted t) as [[x y]|]; reflexivity.
    + cbn [append read_sql_quoted]. rewrite Ec, IH. destruct (read_sql_quoted t) as [[x y]|]; reflexivity.
Qed.

Lemma sql_string_literal_quoted (s : string) :
  sql_string_literal (sq ++ double_quotes s ++ sq) = Some s.
Proof.
  cbn [sql_string_literal sq append]. cbn [Ascii.eqb]. 
  change (String (ascii_of_nat 39) "") with sq.
  rewrite read_double_quotes. cbn. rewrite str_append_nil. reflexivity.
Qed.

(** [escape_string] on a string, or on a dict through its JSON text,
    gives a quoted SQL literal that reads back as exactly that text:
    every single quote in it is doubled, so none can close the literal
    early. *)
Theorem escape_string_round_trip (v : value) :
  match v with
  | VStr s => sql_string_literal (escape_string v) = Some s
  | VDict _ => sql_string_literal (escape_string v) = Some (json_dumps lib v)
  | _ => True
  end.
Proof.
  destruct v; try exact I; cbn [escape_string]; rewrite replace_quote;
    apply sql_string_literal_quoted.
Qed.

(** ** The default user *)

Lemma keeps_log_count_or_zero (table where_ : string) : keeps_log (count_or_zero table where_).
Proof.
  apply keeps_log_try_except; [apply keeps_log_count_rows_safe|].
  intros e. destruct (is_table_not_found_error e); auto using keeps_log_ret, keeps_log_raise.
Qed.

(** [create_default_user] never raises and executes at most one
    statement, the INSERT of the default user.  It answers
    [created = True], with the new user's id, exactly when the user count
    came back not positive and that INSERT then succeeded.  It answers
    [created = False] without an id when the count was positive or raised
    (nothing executed), or when the INSERT raised (its statement was sent
    and the error swallowed). *)
Theorem create_default_user_outcome (w w' : world) (o : outcome (bool * option string)) :
  create_default_user_src w = (o, w') ->
  exists created user_id, o = Ok (created, user_id) /\
  ((created = true /\ user_id = Some (new_uuid inputs)
    /\ exists n w1 s2, get_user_count w = (Ok n, w1) /\ (n <= 0)%Z
         /\ execute_db (gw w1) (build_insert "users" default_user_data) = (Ok tt, s2)
         /\ w' = World s2 (app (exec_log w) [build_insert "users" default_user_data]))
   \/ (created = false /\ user_id = None
       /\ ((exists n w1, get_user_count w = (Ok n, w1) /\ (0 < n)%Z
              /\ w' = w1 /\ exec_log w' = exec_log w)
           \/ (exists e w1, get_user_count w = (Raise e, w1)
                 /\ w' = w1 /\ exec_log w' = exec_log w)
           \/ (exists n w1 e s2, get_user_count w = (Ok n, w1) /\ (n <= 0)%Z
                 /\ execute_db (gw w1) (build_insert "users" default_user_data)
                    = (Raise e, s2)
                 /\ w' = World s2
                          (app (exec_log w) [build_insert "users" default_user_data]))))).
Proof.
  intros H. unfold create_default_user_src, default_user_body, try_except, bind in H.
  destruct (get_user_count w) as [[n|e] w1] eqn:Eg;
    pose proof (keeps_log_count_or_zero _ _ _ _ _ Eg) as Hl1.
  - destruct (n >? 0)%Z eqn:En.
    + apply Z.gtb_lt in En.
      injection H as <- <-. do 2 eexists. split; [reflexivity|]. right.
      split; [reflexivity|]. split; [reflexivity|]. left.
      exists n, w1. split; [reflexivity|]. split; [lia|]. split; [reflexivity|exact Hl1].
    + rewrite Z.gtb_ltb in En. apply Z.ltb_ge in En.
      unfold create_user, bind, execute in H.
      destruct (execute_db (gw w1) (build_insert "users" default_user_data))
        as [[u|e] s2] eqn:Ex; injection H as <- <-; do 2 eexists; (split; [reflexivity|]).
      * destruct u. left. split; [reflexivity|]. split; [reflexivity|].
        exists n, w1, s2. split; [reflexivity|]. split; [exact En|].
        split; [exact Ex|]. rewrite Hl1. reflexivity.
      * right. split; [reflexivity|]. split; [reflexivity|]. right. right.
        exists n, w1, e, s2. split; [reflexivity|]. split; [exact En|].
        split; [exact Ex|]. rewrite Hl1. reflexivity.
  - injection H as <- <-. do 2 eexists. split; [reflexivity|]. right.
    split; [reflexivity|]. split; [reflexivity|]. right. left.
    exists e, w1. split; [reflexivity|]. split; [reflexivity|exact Hl1].
Qed.

(** ** Seeding the default categories *)

Lemma seed_each_log (cats : list (string * string * string * string * string))
    (k : nat) (w w' : world) (o : outcome nat) :
  seed_each cats k w = (o, w') ->
  exists n, o = Ok n
    /\ exec_log w' = app (exec_log w)
         (map (fun '(cat_id, name, icon, color, keywords) =>
                 category_insert_sql cat_id name icon color keywords) cats)
    /\ k <= n <= k + length cats.
Proof.
  revert k w. induction cats as [|[[[[cat_id name] icon] color] keywords] cats IH];
    intros k w H; cbn [seed_each] in H.
  - injection H as <- <-. exists k. split; [reflexivity|].
    split; [cbn; rewrite app_nil_r; reflexivity|cbn; lia].
  - unfold bind, try_except, execute in H.
    destruct (execute_db (gw w) (category_insert_sql cat_id name icon color keywords))
      as [[u|e] s1]; cbn [ret] in H;
      destruct (IH _ _ H) as (n & -> & Hl & Hn); exists n; cbn [exec_log map length] in *;
      rewrite Hl, <- app_assoc; (split; [reflexivity|]); (split; [reflexivity|lia]).
Qed.

(** [seed_default_categories] never raises and returns at most the
    number of default categories.  What it executes follows from what it
    reads.  Nothing, when the category count raised or was positive, or
    the system-user check raised.  The system user's INSERT only when the
    check found no system user (an empty answer): alone when that INSERT
    raised, followed by every category INSERT once and in order when it
    succeeded.  Every category INSERT once and in order, and nothing else,
    when the check found the system user. *)
Theorem seed_default_categories_log (w w' : world) (o : outcome nat) :
  seed_default_categories w = (o, w') ->
  exists n, o = Ok n /\ n <= length default_categories
  /\ ((n = 0 /\ exec_log w' = exec_log w
       /\ ((exists e w1, count_rows_safe "categories" "" w = (Raise e, w1))
           \/ (exists c w1, count_rows_safe "categories" "" w = (Ok c, w1) /\ (0 < c)%Z)
           \/ (exists c w1 e s2, count_rows_safe "categories" "" w = (Ok c, w1)
                 /\ (c <= 0)%Z /\ query_db (gw w1) system_user_check_sql = (Raise e, s2))))
      \/ (exists c w1 s2 e s3, count_rows_safe "categories" "" w = (Ok c, w1)
            /\ (c <= 0)%Z /\ query_db (gw w1) system_user_check_sql = (Ok [], s2)
            /\ execute_db s2 system_user_sql = (Raise e, s3)
            /\ n = 0 /\ exec_log w' = app (exec_log w) [system_user_sql])
      \/ (exists c w1 s2 s3, count_rows_safe "categories" "" w = (Ok c, w1)
            /\ (c <= 0)%Z /\ query_db (gw w1) system_user_check_sql = (Ok [], s2)
            /\ execute_db s2 system_user_sql = (Ok tt, s3)
            /\ exec_log w' = app (exec_log w) (system_user_sql :: category_inserts))
      \/ (exists c w1 r rs s2, count_rows_safe "categories" "" w = (Ok c, w1)
            /\ (c <= 0)%Z /\ query_db (gw w1) system_user_check_sql = (Ok (r :: rs), s2)
            /\ exec_log w' = app (exec_log w) category_inserts)).
Proof.
  intros H. unfold seed_default_categories, try_except, bind in H.
  destruct (count_rows_safe "categories" "" w) as [[c|e] w1] eqn:Ec;
    pose proof (keeps_log_count_rows_safe _ _ _ _ _ Ec) as Hl1.
  - destruct (c >? 0)%Z eqn:Hc.
    + apply Z.gtb_lt in Hc.
      injection H as <- <-. exists 0. split; [reflexivity|]. split; [cbn; lia|].
      left. split; [reflexivity|]. split; [exact Hl1|]. right. left. eauto.
    + rewrite Z.gtb_ltb in Hc. apply Z.ltb_ge in Hc.
      unfold query in H.
      destruct (query_db (gw w1) system_user_check_sql) as [[rs|e] s2] eqn:Eq.
      * destruct rs as [|r rs].
        -- unfold execute in H. cbn [gw] in H.
           destruct (execute_db s2 system_user_sql) as [[u|e] s3] eqn:Ex;
             cbn [ret negb] in H.
           ++ destruct u.
              destruct (seed_each default_categories 0 _) as [o1 w2] eqn:Es.
              destruct (seed_each_log _ _ _ _ _ Es) as (n & -> & Hl & Hn).
              injection H as <- <-. exists n. split; [reflexivity|]. split; [lia|].
              right. right. left. exists c, w1, s2, s3.
              split; [reflexivity|]. split; [exact Hc|]. split; [exact Eq|].
              split; [exact Ex|].
              rewrite Hl. cbn [exec_log]. rewrite Hl1, <- app_assoc. reflexivity.
           ++ injection H as <- <-. exists 0. split; [reflexivity|]. split; [cbn; lia|].
              right. left. exists c, w1, s2, e, s3.
              split; [reflexivity|]. split; [exact Hc|]. split; [exact Eq|].
              split; [exact Ex|]. split; [reflexivity|].
              cbn [exec_log]. rewrite Hl1. reflexivity.
        -- cbn [ret negb] in H.
           destruct (seed_each default_categories 0 _) as [o1 w2] eqn:Es.
           destruct (seed_each_log _ _ _ _ _ Es) as (n & -> & Hl & Hn).
           injection H as <- <-. exists n. split; [reflexivity|]. split; [lia|].
           right. right. right. exists c, w1, r, rs, s2.
           split; [reflexivity|]. split; [exact Hc|]. split; [exact Eq|].
           rewrite Hl. cbn [exec_log]. rewrite Hl1. reflexivity.
      * cbn [ret negb] in H. injection H as <- <-. exists 0.
        split; [reflexivity|]. split; [cbn; lia|]. left.
        split; [reflexivity|]. split; [exact Hl1|]. right. right.
        exists c, w1, e, s2. auto.
  - injection H as <- <-. exists 0. split; [reflexivity|]. split; [cbn; lia|].
    left. split; [reflexivity|]. split; [exact Hl1|]. left. eauto.
Qed.

(** ** Users table schema check and migration *)

Ltac solve_keeps_log :=
  repeat (intros; match goal with
  | |- keeps_log (try_except _ _) => apply keeps_log_try_except
  | |- keeps_log (bind _ _) => apply keeps_log_bind
  | |- keeps_log (if ?b then _ else _) => destruct b
  | |- keeps_log (match ?x with _ => _ end) => destruct x
  | |- keeps_log (table_exists _) => unfold table_exists
  | |- keeps_log (column_probe _ _) => unfold column_probe
  | |- _ => solve [auto using keeps_log_ret, keeps_log_raise, keeps_log_lift,
                   keeps_log_query]
  end).

Lemma keeps_log_table_exists (t : string) : keeps_log (table_exists t).
Proof. solve_keeps_log. Qed.

Lemma keeps_log_check_users_table_schema : keeps_log check_users_table_schema.
Proof. unfold check_users_table_schema. solve_keeps_log. Qed.

(** Every answer of [check_users_table_schema] is consistent: the schema
    is correct exactly when both the [email] and [password_hash] probes
    pass, a migration is asked for exactly when the table exists with an
    incorrect schema, and an error is reported only for a table it
    counts as missing. *)
Theorem check_users_table_schema_consistent (w w' : world) (o : outcome schema_check) :
  check_users_table_schema w = (o, w') ->
  exists sc, o = Ok sc /\ exec_log w' = exec_log w
  /\ sc_has_correct_schema sc = sc_has_email sc && sc_has_password_hash sc
  /\ sc_is_old_schema sc = sc_exists sc && negb (sc_has_correct_schema sc)
  /\ sc_needs_migration sc = sc_exists sc && negb (sc_has_correct_schema sc)
  /\ (sc_error sc <> None -> sc_exists sc = false).
Proof.
  intros H. pose proof (keeps_log_check_users_table_schema _ _ _ H) as Hl.
  unfold check_users_table_schema, try_except, bind in H.
  destruct (table_exists "users" w) as [[ex|e] w1].
  - destruct ex; cbn [negb] in H.
    + destruct (column_probe email_probe_sql "email" w1) as [[he|e] w2].
      * destruct (column_probe password_probe_sql "password_hash" w2) as [[hp|e] w3];
          cbv zeta in H; cbn [ret] in H; injection H as <- _; eexists;
          (split; [reflexivity|]); (split; [exact Hl|]); cbn;
          repeat split; intros; try reflexivity; congruence.
      * cbn [ret] in H. injection H as <- _. eexists. split; [reflexivity|].
        split; [exact Hl|]. cbn. repeat split; intros; try reflexivity; congruence.
    + cbn [ret] in H. injection H as <- _. eexists. split; [reflexivity|].
      split; [exact Hl|]. cbn. repeat split; intros; try reflexivity; congruence.
  - cbn [ret] in H. injection H as <- _. eexists. split; [reflexivity|].
    split; [exact Hl|]. cbn. repeat split; intros; try reflexivity; congruence.
Qed.

(** [migrate_users_table] never raises.  It executes [DROP TABLE users],
    then at most the CREATE statement of the new users table, and
    answers [True] only when that CREATE statement ran. *)
Theorem migrate_users_table_log (w w' : world) (o : outcome bool) :
  migrate_users_table w = (o, w') ->
  exists b, o = Ok b
  /\ (exec_log w' = app (exec_log w) ["DROP TABLE users"]
      \/ exec_log w' = app (exec_log w) ["DROP TABLE users"; users_create_statement])
  /\ (b = true ->
      exec_log w' = app (exec_log w) ["DROP TABLE users"; users_create_statement]).
Proof.
  intros H. unfold migrate_users_table, try_except, bind, execute at 1 in H.
  destruct (execute_db (gw w) "DROP TABLE users") as [[u|e] s1].
  2: destruct (contains "does not exist" (lower (exc_str e))
               || contains "not found" (lower (exc_str e))); cbn [raise ret] in H.
  3: injection H as <- <-; exists false; split; [reflexivity|];
     split; [left; reflexivity|discriminate].
  all: unfold execute in H;
    destruct (execute_db _ users_create_statement) as [[u2|e2] s2];
    [ destruct (check_users_table_schema _) as [[sc|e3] w3] eqn:Ec;
      pose proof (keeps_log_check_users_table_schema _ _ _ Ec) as Hl;
      cbn [exec_log] in Hl; cbn [ret] in H; injection H as <- <-;
      eexists; (split; [reflexivity|]); rewrite Hl, <- app_assoc;
      (split; [right; reflexivity|intros; reflexivity])
    | cbn [ret] in H; injection H as <- <-; exists false; split; [reflexivity|];
      cbn [exec_log]; rewrite <- app_assoc; split; [right; reflexivity|discriminate] ].
Qed.

(** ** Inline table creation *)

Lemma create_table_step_log (t st : string) (c s : nat) (errs : list string)
    (w w' : world) (o : outcome counters) :
  create_table_step t st (c, s, errs) w = (o, w') ->
  exists l, exec_log w' = app (exec_log w) l /\ (l = [] \/ l = [st])
  /\ ((o = Ok (S c, s, errs) /\ l = [st]) \/ o = Ok (c, S s, errs)
      \/ exists m, o = Ok (c, s, app errs [m])).
Proof.
  intros H. unfold create_table_step, try_except, bind in H.
  destruct (table_exists t w) as [[ex|e] w1] eqn:E1;
    pose proof (keeps_log_table_exists _ _ _ _ E1) as Hl1.
  1: destruct ex.
  2: unfold execute in H; destruct (execute_db (gw w1) st) as [[u|e2] s2].
  2: destruct (table_exists t (World s2 (app (exec_log w1) [st]))) as [[ex2|e3] w3] eqn:E3;
     pose proof (keeps_log_table_exists _ _ _ _ E3) as Hl3; cbn [exec_log] in Hl3;
     cbv beta iota zeta in H.
  2: destruct ex2.
  all: repeat match type of H with
       | context [if ?b then _ else _] => destruct b
       end; unfold ret in H; injection H as <- <-; cbn [exec_log];
       rewrite ?Hl3, ?Hl1;
       first [ exists []; rewrite app_nil_r; split; [reflexivity|];
               split; [left; reflexivity|]; eauto 6
             | exists [st]; split; [reflexivity|]; split; [right; reflexivity|];
               eauto 6 ].
Qed.

Lemma create_each_log (tables : list (string * string)) (c s : nat) (errs : list string)
    (w w' : world) (o : outcome counters) :
  create_each tables (c, s, errs) w = (o, w') ->
  exists c' s' errs' l, o = Ok (c', s', errs')
  /\ c' + s' + length errs' = c + s + length errs + length tables
  /\ exec_log w' = app (exec_log w) l
  /\ incl l (map snd tables) /\ subseq l (map snd tables)
  /\ c' <= c + length l /\ length l <= length tables.
Proof.
  revert c s errs w. induction tables as [|[name st] tables IH]; intros c s errs w H;
    cbn [create_each] in H.
  - injection H as <- <-. exists c, s, errs, []. cbn. rewrite app_nil_r.
    repeat split; try lia; [intros x []|constructor].
  - unfold bind in H.
    destruct (create_table_step name st (c, s, errs) w) as [o1 w1] eqn:E1.
    destruct (create_table_step_log _ _ _ _ _ _ _ _ E1) as (l1 & Hl1 & Hl1' & Ho1).
    assert (Hacc : exists c1 s1 errs1, o1 = Ok (c1, s1, errs1)
              /\ c1 + s1 + length errs1 = S (c + s + length errs)
              /\ c1 <= c + length l1).
    { destruct Ho1 as [[-> ->] | [-> | [m ->]]]; do 3 eexists;
        (split; [reflexivity|]); rewrite ?length_app; cbn [length]; lia. }
    destruct Hacc as (c1 & s1 & errs1 & -> & Hsum & Hc1).
    destruct (IH _ _ _ _ H)
      as (c' & s' & errs' & l & -> & Hsum' & Hl & Hincl & Hsub & Hc' & Hlen).
    exists c', s', errs', (app l1 l). split; [reflexivity|]. cbn [length map snd].
    split; [lia|]. split; [rewrite Hl, Hl1, app_assoc; reflexivity|].
    split.
    + intros x Hx. apply in_app_or in Hx. destruct Hx as [Hx|Hx].
      * destruct Hl1' as [-> | ->]; [destruct Hx|]. destruct Hx as [<-|[]]. left. reflexivity.
      * right. apply Hincl. exact Hx.
    + split.
      { destruct Hl1' as [-> | ->]; cbn [app]; constructor; exact Hsub. }
      rewrite length_app. destruct Hl1' as [-> | ->]; cbn [length] in *; lia.
Qed.

(** [create_tables_inline] never raises and accounts for every table of
    the inline schema once: created, skipped or reported as an error.  The
    statements it executes are CREATE statements of that schema taken in
    schema order, each at most once (a subsequence of them), and it counts
    a table as created only after executing one. *)
Theorem create_tables_inline_accounting (w w' : world) (o : outcome counters) :
  create_tables_inline w = (o, w') ->
  exists created skipped errors l, o = Ok (created, skipped, errors)
  /\ created + skipped + length errors = length table_statements
  /\ exec_log w' = app (exec_log w) l
  /\ subseq l (map snd table_statements)
  /\ created <= length l <= length table_statements.
Proof.
  intros H. unfold create_tables_inline in H.
  destruct (create_each_log _ _ _ _ _ _ _ H)
    as (c & s & errs & l & -> & Hsum & Hl & Hincl & Hsub & Hc & Hlen).
  exists c, s, errs, l. cbn [length] in Hsum. repeat split; auto; lia.
Qed.

(** ** Statements executed by [create_tables] *)

Lemma insert_handler_extends (e : py_exc) (tn : option string) (errors : list string) :
  match insert_handler e tn errors with
  | Continue errs | Abort errs => exists extra, errs = app errors extra
  end.
Proof.
  unfold insert_handler. destruct tn as [t|]; [|exists []; symmetry; apply app_nil_r].
  repeat match goal with |- context [if ?b then _ else _] => destruct b end;
    eexists; (reflexivity || (symmetry; apply app_nil_r)).
Qed.

Lemma insert_loop_log (statements : list string) (tn : option string)
    (errors : list string) (w w' : world) (o : outcome (list string)) :
  insert_loop statements tn errors w = (o, w') ->
  exists errors' l, o = Ok errors' /\ exec_log w' = app (exec_log w) l
  /\ (exists extra, errors' = app errors extra)
  /\ Forall (fun st => In st statements /\ starts_with "INSERT INTO" (upper st) = true) l.
Proof.
  revert tn errors w. induction statements as [|st rest IH]; intros tn errors w H;
    cbn [insert_loop] in H.
  - injection H as <- <-. exists errors, []. rewrite !app_nil_r.
    repeat split; [exists []; rewrite app_nil_r; reflexivity|constructor].
  -
    assert (Hlift : forall l, Forall (fun st0 => In st0 rest
                        /\ starts_with "INSERT INTO" (upper st0) = true) l ->
              Forall (fun st0 => In st0 (st :: rest)
                        /\ starts_with "INSERT INTO" (upper st0) = true) l).
    { intros l Hl. eapply Forall_impl; [|exact Hl]. intros x [Hx Hs]. split; [right|]; assumption. }
    destruct (starts_with "INSERT INTO" (upper st)) eqn:Ei.
    2: { destruct (IH _ _ _ H) as (errs' & l & -> & Hl & Hext & Hf).
         exists errs', l. repeat split; auto. }
    destruct (split_on "INSERT INTO" st) as [|x [|after ls]].
    1,2: pose proof (insert_handler_extends (PyExc "IndexError" "list index out of range")
                       tn errors) as Hx;
         destruct (insert_handler _ tn errors) as [errs|errs];
         [ destruct (IH _ _ _ H) as (errs' & l & -> & Hl & [extra' ->] & Hf);
           destruct Hx as [extra ->]; exists (app (app errors extra) extra'), l;
           repeat split; auto; exists (app extra extra'); rewrite app_assoc; reflexivity
         | injection H as <- <-; destruct Hx as [extra ->];
           exists (app errors extra), []; rewrite app_nil_r; repeat split; eauto ].
    unfold bind, try_except, execute in H.
    destruct (execute_db (gw w) st) as [[u|e] s1]; cbn [ret] in H.
    + destruct (IH _ _ _ H) as (errs' & l & -> & Hl & Hext & Hf).
      exists errs', (st :: l). cbn [exec_log] in Hl. rewrite Hl, <- app_assoc.
      repeat split; auto. constructor; [split; [left; reflexivity|exact Ei]|auto].
    + pose proof (insert_handler_extends e (Some (strip (hd "" (split_on "(" after)))) errors)
        as Hx.
      destruct (insert_handler e _ errors) as [errs|errs].
      * destruct (IH _ _ _ H) as (errs' & l & -> & Hl & [extra' ->] & Hf).
        destruct Hx as [extra ->].
        exists (app (app errors extra) extra'), (st :: l). cbn [exec_log] in Hl.
        rewrite Hl, <- (app_assoc (exec_log w)). split; [reflexivity|]. split; [reflexivity|]. split.
        -- exists (app extra extra'). rewrite app_assoc. reflexivity.
        -- constructor; [split; [left; reflexivity|exact Ei]|auto].
      * injection H as <- <-. destruct Hx as [extra ->].
        exists (app errors extra), [st]. repeat split; eauto.
        constructor; [split; [left; reflexivity|exact Ei]|constructor].
Qed.

(** [create_tables] never raises.  It executes only statements of the
    inline schema, or, when the schema file was read, statements of that
    file as [parse_sql_statements] returns them that are CREATE TABLE or
    INSERT INTO statements. *)
Theorem create_tables_executes_schema (w w' : world) (o : outcome counters) :
  create_tables w = (o, w') ->
  exists cnt l, o = Ok cnt /\ exec_log w' = app (exec_log w) l
  /\ (incl l (map snd table_statements)
      \/ exists content, schema_file = Ok content
         /\ Forall (fun st => In st (parse_sql_statements content)
                     /\ (starts_with "CREATE TABLE" (upper st) = true
                         \/ starts_with "INSERT INTO" (upper st) = true)) l).
Proof.
  intros H. unfold create_tables in H. revert H.
  destruct schema_file as [content|e] eqn:Es; intros H.
  2: destruct (create_each_log _ _ _ _ _ _ _ H)
       as (c & s & errs & l & -> & _ & Hl & Hincl & _);
     exists (c, s, errs), l; auto.
  destruct (parse_sql_statements content) as [|s0 sts] eqn:Ep.
  1: destruct (create_each_log _ _ _ _ _ _ _ H)
       as (c & s & errs & l & -> & _ & Hl & Hincl & _);
     exists (c, s, errs), l; auto.
  unfold bind in H.
  match type of H with context [create_each ?cr (0, 0, []) w] =>
    destruct (create_each cr (0, 0, []) w) as [o1 w1] eqn:E1 end.
  destruct (create_each_log _ _ _ _ _ _ _ E1)
    as (c & s & errs & l1 & -> & _ & Hl1 & Hincl1 & _).
  cbv beta iota zeta in H.
  match type of H with context [insert_loop ?sts0 ?tn ?errs0 w1] =>
    destruct (insert_loop sts0 tn errs0 w1) as [o2 w2] eqn:E2 end.
  destruct (insert_loop_log _ _ _ _ _ _ E2) as (errs' & l2 & -> & Hl2 & _ & Hf2).
  unfold ret in H. injection H as <- <-.
  exists (c, s, errs'), (app l1 l2). split; [reflexivity|].
  split; [rewrite Hl2, Hl1, app_assoc; reflexivity|].
  right. exists content. split; [reflexivity|]. rewrite Ep.
  apply Forall_app. split.
  - apply Forall_forall. intros x Hx. apply Hincl1 in Hx.
    apply in_map_iff in Hx. destruct Hx as ([a b] & Hb & Hx). cbn [snd] in Hb. subst b.
    apply in_map_iff in Hx. destruct Hx as (y & Hy & Hx). injection Hy as _ <-.
    unfold create_statements in Hx. apply filter_In in Hx. destruct Hx as [Hx Hc].
    apply andb_true_iff in Hc. destruct Hc as [_ Hc]. auto.
  - eapply Forall_impl; [|exact Hf2]. intros x [Hx Hi]. auto.
Qed.

End Runtime.

(** ** The statements [parse_sql_statements] returns *)

Local Abbreviation chars := list_ascii_of_string.

Lemma in_chars_append (x : ascii) (a b : string) :
  In x (chars (a ++ b)) <-> In x (chars a) \/ In x (chars b).
Proof. induction a as [|c a IH]; cbn; [tauto|]. rewrite IH. tauto. Qed.

Lemma in_chars_rev_str (x : ascii) (s acc : string) :
  In x (chars (rev_str s acc)) <-> In x (chars s) \/ In x (chars acc).
Proof.
  revert acc. induction s as [|c s IH]; intros acc; cbn; [tauto|]. rewrite IH. cbn. tauto.
Qed.

Lemma in_chars_lstrip (x : ascii) (s : string) :
  In x (chars (lstrip s)) -> In x (chars s).
Proof.
  induction s as [|c s IH]; cbn; [tauto|]. destruct (is_space c); cbn; auto.
Qed.

Lemma in_chars_strip (x : ascii) (s : string) :
  In x (chars (strip s)) -> In x (chars s).
Proof.
  unfold strip. intros H. apply in_chars_rev_str in H. destruct H as [H|[]].
  apply in_chars_lstrip, in_chars_rev_str in H. destruct H as [H|[]].
  apply in_chars_lstrip. exact H.
Qed.

Lemma in_chars_drop_prefix (x : ascii) (p s : string) :
  In x (chars (drop_prefix p s)) -> In x (chars s).
Proof.
  revert s. induction p as [|a p IH]; intros s; [destruct s; cbn; auto|].
  destruct s as [|c s]; cbn; auto.
Qed.

Lemma in_chars_split_on_aux (x : ascii) (fuel : nat) (sep s cur piece : string) :
  In piece (split_on_aux fuel sep s cur) -> In x (chars piece) ->
  In x (chars s) \/ In x (chars cur).
Proof.
  revert s cur. induction fuel as [|f IH]; intros s cur Hp Hx; cbn in Hp.
  - destruct Hp as [<-|[]]. apply in_chars_append in Hx.
    destruct Hx as [Hx|Hx]; [apply in_chars_rev_str in Hx; destruct Hx as [Hx|[]]|]; auto.
  - destruct s as [|c r].
    + destruct Hp as [<-|[]]. apply in_chars_rev_str in Hx. destruct Hx as [Hx|[]]. auto.
    + destruct (starts_with sep (String c r)).
      * destruct Hp as [<-|Hp].
        -- apply in_chars_rev_str in Hx. destruct Hx as [Hx|[]]. auto.
        -- destruct (IH _ _ Hp Hx) as [Hx'|[]]. left. eapply in_chars_drop_prefix. exact Hx'.
      * destruct (IH _ _ Hp Hx) as [Hx'|Hx']; cbn in *; tauto.
Qed.

Lemma split_on_char_free (d : ascii) (fuel : nat) (s cur piece : string) :
  String.length s < fuel -> ~ In d (chars cur) ->
  In piece (split_on_aux fuel (String d "") s cur) -> ~ In d (chars piece).
Proof.
  revert s cur. induction fuel as [|f IH]; intros s cur Hf Hc Hp; [cbn in Hf; lia|].
  destruct s as [|c r]; cbn [split_on_aux] in Hp.
  - destruct Hp as [<-|[]]. rewrite in_chars_rev_str. cbn. tauto.
  - cbn in Hf. cbn [starts_with] in Hp. rewrite andb_true_r in Hp.
    destruct (Ascii.eqb d c) eqn:Edc.
    + destruct Hp as [<-|Hp].
      * rewrite in_chars_rev_str. cbn. tauto.
      * cbn [drop_prefix] in Hp. apply (IH r ""); [lia|cbn; tauto|exact Hp].
    + apply (IH r (String c cur)); [lia| |exact Hp].
      apply Ascii.eqb_neq in Edc. cbn. intros [E|E]; [congruence|tauto].
Qed.

Lemma in_chars_join (x : ascii) (sep : string) (l : list string) :
  In x (chars (join sep l)) -> In x (chars sep) \/ exists y, In y l /\ In x (chars y).
Proof.
  induction l as [|a l IH]; cbn [join]; [cbn; tauto|].
  destruct l as [|b l].
  - intros H. right. exists a. split; [left; reflexivity|exact H].
  - intros H. apply in_chars_append in H. destruct H as [H|H].
    + right. exists a. split; [left; reflexivity|exact H].
    + apply in_chars_append in H. destruct H as [H|H]; [left; exact H|].
      destruct (IH H) as [H'|(y & Hy & H')]; [left; exact H'|].
      right. exists y. split; [right; exact Hy|exact H'].
Qed.

Lemma in_chars_clean_line (x : ascii) (line : string) :
  In x (chars (clean_line line)) -> In x (chars line).
Proof.
  unfold clean_line. intros H. apply in_chars_strip in H.
  destruct (contains "--" line); [|exact H].
  unfold split_on in H.
  destruct (split_on_aux _ "--" line "") as [|p ps] eqn:E; [destruct H|].
  cbn [hd] in H.
  assert (Hp : In p (split_on_aux (S (String.length line)) "--" line "")) by (rewrite E; left; reflexivity).
  destruct (in_chars_split_on_aux _ _ _ _ _ _ Hp H) as [H'|[]]. exact H'.
Qed.

(** Every statement [parse_sql_statements] returns holds no [;] and no
    line break, and names one of the SQL keywords it looks for. *)
Theorem parse_sql_statements_clean (sql_content : string) :
  Forall (fun st => ~ In ";"%char (chars st) /\ ~ In (ascii_of_nat 10) (chars st)
                    /\ any_phrase ["CREATE"; "INSERT"; "UPDATE"; "DELETE"; "SELECT";
                                   "DROP"; "ALTER"] (upper st) = true)
         (parse_sql_statements sql_content).
Proof.
  apply Forall_forall. intros st Hst. unfold parse_sql_statements in Hst.
  apply in_flat_map in Hst. destruct Hst as (stmt & Hstmt & Hst).
  assert (Hsemi : ~ In ";"%char (chars stmt)).
  { apply (split_on_char_free ";"%char (S (String.length sql_content)) sql_content "");
      [lia|cbn; tauto|exact Hstmt]. }
  destruct (filter _ _) as [|l0 ls] eqn:Ef in Hst; [destruct Hst|].
  destruct (any_phrase _ _) eqn:Ek in Hst; [|destruct Hst].
  destruct Hst as [<-|[]].
  assert (Hchars : forall x, In x (chars (join " " (l0 :: ls))) ->
                    x = " "%char \/ (In x (chars stmt) /\ x <> ascii_of_nat 10)).
  { intros x Hx. apply in_chars_join in Hx. destruct Hx as [[<-|[]]|(y & Hy & Hx)];
      [left; reflexivity|right].
    rewrite <- Ef in Hy. apply filter_In in Hy. destruct Hy as [Hy _].
    apply in_map_iff in Hy. destruct Hy as (piece & <- & Hpiece).
    apply in_chars_clean_line in Hx.
    split.
    - destruct (in_chars_split_on_aux _ _ _ _ _ _ Hpiece Hx) as [H|[]]. exact H.
    - intros ->. revert Hx. apply (split_on_char_free _ (S (String.length stmt)) stmt "");
        [lia|cbn; tauto|exact Hpiece]. }
  split; [|split; [|exact Ek]].
  - intros Hx. destruct (Hchars _ Hx) as [E|[H _]]; [discriminate|tauto].
  - intros Hx. destruct (Hchars _ Hx) as [E|[_ H]]; [discriminate|tauto].
Qed.

(** * Concrete runs *)

(** A COUNT query the backend rejects with a syntax error, and a gateway
    that refuses both fallback fetches: [count_rows] returns 0. *)
Lemma count_rows_zero_after_failed_fetches :
  count_rows_safe
    (route_gateway (count_native_sql "transactions" "")
       (Raise (PyExc "Exception" "syntax error near COUNT"))
       (Raise (PyExc "ConnectionError" "connection refused")))
    (fun _ => None) "transactions" "" (World tt [])
  = (Ok 0%Z, World tt []).
Proof. vm_compute. reflexivity. Qed.

(** An ungrouped SUM the backend rejects, over a table the fallback fetch
    finds empty: [aggregate] returns no row at all. *)
Lemma aggregate_ungrouped_empty_fetch :
  aggregate_safe
    (route_gateway (aggregate_native_sql "transactions" [("SUM", "amount")] "" None "" "")
       (Raise (PyExc "Exception" "syntax error near SUM"))
       (Ok []))
    (fun _ => None) (fun l => l)
    "transactions" [("SUM", "amount")] "" None "" "" (World tt [])
  = (Ok [], World tt []).
Proof. vm_compute. reflexivity. Qed.

(** The error text "COUNT: expected identifier" names the function and
    holds "expected identifier", yet [count_rows] re-raises it: its
    signature wants "expected identifier near". *)
Lemma count_rows_expected_identifier_reraised :
  count_rows_safe
    (route_gateway (count_native_sql "transactions" "")
       (Raise (PyExc "Exception" "COUNT: expected identifier"))
       (Ok [[("id", VStr "t1")]]))
    (fun _ => None) "transactions" "" (World tt [])
  = (Raise (PyExc "Exception" "COUNT: expected identifier"), World tt []).
Proof. vm_compute. reflexivity. Qed.


(** The same text through the C4 theorem: the native COUNT raises it and
    [count_rows] hands it back unchanged. *)
Lemma count_rows_trigger_narrower_witness :
  count_rows_safe
    (route_gateway (count_native_sql "transactions" "")
       (Raise (PyExc "Exception" "COUNT: expected identifier"))
       (Ok [[("id", VStr "t1")]]))
    (fun _ => None) "transactions" "" (World tt [])
  = (Raise (PyExc "Exception" "COUNT: expected identifier"), World tt []).
Proof.
  refine (proj1 (count_rows_trigger_narrower
            (route_gateway (count_native_sql "transactions" "")
               (Raise (PyExc "Exception" "COUNT: expected identifier"))
               (Ok [[("id", VStr "t1")]]))
            (fun _ => None) (fun _ => None) (fun l => l)
            (PyExc "Exception" "COUNT: expected identifier")
            (World tt []) (World tt []) _ _ _) "transactions" "" _);
    vm_compute; reflexivity.
Defined.

Lemma avg_zero_reported_as_none_witness :
  avg_safe (const_gateway (Ok [[("average", VFloat 0)]])) (fun _ => None)
    "transactions" "amount" "" (World tt [])
  = (Ok None, World tt []).
Proof.
  apply (avg_zero_reported_as_none (const_gateway (Ok [[("average", VFloat 0)]]))
           (fun _ => None) "transactions" "amount" (World tt []) tt (VFloat 0)).
  - right. reflexivity.
  - reflexivity.
Defined.

(** Three expense rows in two categories, grouped with COUNT: one result
    row per category, counting 2 and 1. *)
Lemma grouped_fallback_partition_witness :
  let rows : list row := [[("category", VStr "food"); ("amount", VInt 120)];
        [("category", VStr "rent"); ("amount", VInt 900)];
        [("category", VStr "food"); ("amount", VInt 80)]] in
  let results : list row := [[("category", VStr "food"); ("count_all", VInt 2)];
        [("category", VStr "rent"); ("count_all", VInt 1)]] in
  (forall r, In r rows -> exists v, get r "category" = Some v
     /\ length (filter (fun res => py_eq (get_or res "category" VNone) v) results) = 1)
  /\ (forall res, In res results -> exists r v,
        In r rows /\ get r "category" = Some v /\ get res "category" = Some v)
  /\ (In "count_all" (map (fun '(f, c) => alias f c) [("COUNT", "*")]) ->
      (forall f c, In (f, c) [("COUNT", "*")] -> alias f c = "count_all" ->
                   String.eqb (upper f) "COUNT" = true /\ c = "*") ->
      forall res, In res results -> exists k,
        get res "category" = Some k
        /\ get res "count_all"
           = Some (VInt (Z.of_nat (length (rows_with "category" k rows))))).
Proof.
  intros rows results.
  apply (grouped_fallback_partition (fun _ => None) (fun _ => None) [("COUNT", "*")]
           "category" "" rows results).
  - discriminate.
  - intros H. vm_compute in H. destruct H as [H|[]]. discriminate H.
  - vm_compute. reflexivity.
Defined.

(** An existing users table whose email probe fails with a connection
    error: the first statement [initialize_database] executes is the drop
    of the users table. *)
Lemma failed_probe_forces_migration_witness :
  exists r w' l,
    initialize_database
      (route_gateway email_probe_sql
         (Raise (PyExc "ConnectionError" "connection reset by peer")) (Ok []))
      noop_execute (fun _ => None)
      (Raise (PyExc "FileNotFoundError" "init_pesadb.sql"))
      (fun w => (Ok (false, @None string), w)) true false (World tt []) = (Ok r, w')
    /\ exec_log w' = "DROP TABLE users" :: l.
Proof.
  assert (Ha : appends (St := unit) (fun w => (Ok (false, @None string), w))).
  { intros w o w' H. injection H as _ <-. exists []. rewrite app_nil_r. reflexivity. }
  destruct (failed_probe_forces_migration
              (route_gateway email_probe_sql
                 (Raise (PyExc "ConnectionError" "connection reset by peer")) (Ok []))
              noop_execute (fun _ => None)
              (Raise (PyExc "FileNotFoundError" "init_pesadb.sql"))
              (fun w => (Ok (false, @None string), w)) true false
              (World tt []) [] tt Ha eq_refl) as [_ H].
  - left. eexists _, _. reflexivity.
  - exact H.
Defined.


(** Three rows: one [amount] set, one [None], one missing.  COUNT(amount)
    counts 1, COUNT( * ) 3. *)
Lemma calculate_count_counts_present_witness :
  calculate_aggregate (fun _ => None) "count" "amount"
    [[("amount", VInt 5)]; [("amount", VNone)]; [("note", VStr "x")]] = Ok (VInt 1)
  /\ calculate_aggregate (fun _ => None) "count" "*"
       [[("amount", VInt 5)]; [("amount", VNone)]; [("note", VStr "x")]] = Ok (VInt 3).
Proof.
  apply (calculate_count_counts_present (fun _ => None) "count" "amount"
           [[("amount", VInt 5)]; [("amount", VNone)]; [("note", VStr "x")]]).
  vm_compute. reflexivity.
Defined.

(** MEDIAN over a non-empty column is refused with a [ValueError]. *)
Lemma calculate_unsupported_function_witness :
  calculate_aggregate (fun _ => None) "median" "amount" [[("amount", VInt 5)]]
  = Raise (PyExc "ValueError" "Unsupported aggregate function: MEDIAN").
Proof.
  rewrite (calculate_unsupported_function (fun _ => None) "median" "amount"
             [[("amount", VInt 5)]]).
  - vm_compute. reflexivity.
  - vm_compute. intros [H|[H|[H|[H|[H|[]]]]]]; discriminate H.
Defined.

Lemma calculate_star_sum_avg_witness :
  calculate_aggregate (fun _ => None) "sum" "*" [[("amount", VInt 5)]] = Ok (VInt 0)
  /\ calculate_aggregate (fun _ => None) "avg" "*" [[("amount", VInt 5)]] = Ok VNone.
Proof.
  apply (calculate_star_sum_avg (fun _ => None) [[("amount", VInt 5)]]). discriminate.
Defined.

(** A group without a [count_all] column is judged as if it counted 0. *)
Lemma having_missing_column_as_zero_witness :
  evaluate_having (fun _ => None) "count_all > 2" [("other", VInt 1)]
  = evaluate_having (fun _ => None) "count_all > 2" [("count_all", VInt 0)].
Proof.
  apply (having_missing_column_as_zero (fun _ => None) "count_all > 2" [("other", VInt 1)]
           "count_all" ">" "2" "").
  - vm_compute. reflexivity.
  - left. reflexivity.
Defined.

Lemma sort_results_sorted_witness :
  Permutation [[("amount", VInt 1)]; [("amount", VInt 3)]; [("amount", VInt 2)]]
              [[("amount", VInt 3)]; [("amount", VInt 2)]; [("amount", VInt 1)]]
  /\ Sorted (key_sorted "amount" true)
       [[("amount", VInt 3)]; [("amount", VInt 2)]; [("amount", VInt 1)]].
Proof.
  apply (sort_results_sorted "amount" true
           [[("amount", VInt 1)]; [("amount", VInt 3)]; [("amount", VInt 2)]]).
  vm_compute. reflexivity.
Defined.

(** A backend that rejects the grouped SUM: the fallback returns the rent
    category (900) before the food category (200). *)
Lemma category_spending_summary_sorted_witness :
  Sorted (key_sorted "sum_amount" true)
    [[("category_id", VStr "rent"); ("sum_amount", VFloat 900); ("count_all", VInt 1)];
     [("category_id", VStr "food"); ("sum_amount", VFloat 200); ("count_all", VInt 2)]].
Proof.
  apply (category_spending_summary_sorted
           (route_gateway (aggregate_native_sql "transactions" category_spending_aggregates
              (category_spending_where "u1" "2026-01-01" "2026-01-31")
              (Some "category_id") "" "sum_amount DESC")
              (Raise (PyExc "Exception" "syntax error near SUM"))
              (Ok [[("category_id", VStr "food"); ("amount", VInt 120)];
                   [("category_id", VStr "rent"); ("amount", VInt 900)];
                   [("category_id", VStr "food"); ("amount", VInt 80)]]))
           (fun _ => None) (fun l => l) "u1" "2026-01-01" "2026-01-31"
           (World tt []) (World tt []) _ (PyExc "Exception" "syntax error near SUM") tt).
  - vm_compute. reflexivity.
  - vm_compute. reflexivity.
Defined.

(** A store without a [users] table: the user count is 0. *)
Lemma count_or_zero_spec_witness :
  exec_log (World tt []) = exec_log (World tt [])
  /\ (forall e, @Ok Z 0%Z = Raise e -> is_table_not_found_error e = false)
  /\ (forall n, @Ok Z 0%Z = Ok n -> n = 0%Z
        \/ count_rows_safe (const_gateway (Raise (PyExc "OperationalError" "no such table: users")))
             (fun _ => None) "users" "" (World tt []) = (Ok n, World tt [])).
Proof.
  apply (count_or_zero_spec
           (const_gateway (Raise (PyExc "OperationalError" "no such table: users")))
           (fun _ => None) "users" "" (World tt [])).
  vm_compute. reflexivity.
Defined.

Lemma get_user_count_missing_table_witness :
  get_user_count (const_gateway (Raise (PyExc "OperationalError" "no such table: users")))
    (fun _ => None) (World tt []) = (Ok 0%Z, World tt []).
Proof.
  apply (get_user_count_missing_table
           (const_gateway (Raise (PyExc "OperationalError" "no such table: users")))
           (fun _ => None) (World tt []) (PyExc "OperationalError" "no such table: users") tt).
  - reflexivity.
  - vm_compute. reflexivity.
  - vm_compute. reflexivity.
Defined.

(** An empty [users] table: the default user is created by one INSERT. *)
Lemma create_default_user_outcome_witness :
  let lib0 := PyLibrary (fun _ => "0.0") (fun _ => "{}") in
  let inputs0 := UserInputs "u1" "hash" "2026-01-01T00:00:00" in
  let G := const_gateway (Ok [[("count", VInt 0)]]) in
  let ins := build_insert lib0 "users" (default_user_data inputs0) in
  let r := create_default_user_src G noop_execute (fun _ => None) lib0 inputs0
             (World tt []) in
  exists created user_id, fst r = Ok (created, user_id) /\
  ((created = true /\ user_id = Some "u1"
    /\ exists n w1 s2, get_user_count G (fun _ => None) (World tt []) = (Ok n, w1)
         /\ (n <= 0)%Z /\ noop_execute (gw w1) ins = (Ok tt, s2)
         /\ snd r = World s2 [ins])
   \/ (created = false /\ user_id = None
       /\ ((exists n w1, get_user_count G (fun _ => None) (World tt []) = (Ok n, w1)
              /\ (0 < n)%Z /\ snd r = w1 /\ exec_log (snd r) = [])
           \/ (exists e w1, get_user_count G (fun _ => None) (World tt []) = (Raise e, w1)
                 /\ snd r = w1 /\ exec_log (snd r) = [])
           \/ (exists n w1 e s2,
                 get_user_count G (fun _ => None) (World tt []) = (Ok n, w1)
                 /\ (n <= 0)%Z /\ noop_execute (gw w1) ins = (Raise e, s2)
                 /\ snd r = World s2 [ins])))).
Proof.
  intros lib0 inputs0 G ins r.
  apply (create_default_user_outcome G noop_execute
           (fun _ => None) lib0 inputs0 (World tt []) (snd r) (fst r)).
  vm_compute. reflexivity.
Defined.

(** An empty categories table and no system user: the system user's
    INSERT, then the category INSERTs. *)
Lemma seed_default_categories_log_witness :
  let G := const_gateway (Ok []) in
  let r := seed_default_categories G noop_execute (fun _ => None) (World tt []) in
  exists n, fst r = Ok n /\ n <= length default_categories
  /\ ((n = 0 /\ exec_log (snd r) = []
       /\ ((exists e w1, count_rows_safe G (fun _ => None) "categories" "" (World tt [])
                         = (Raise e, w1))
           \/ (exists c w1, count_rows_safe G (fun _ => None) "categories" "" (World tt [])
                            = (Ok c, w1) /\ (0 < c)%Z)
           \/ (exists c w1 e s2,
                 count_rows_safe G (fun _ => None) "categories" "" (World tt []) = (Ok c, w1)
                 /\ (c <= 0)%Z /\ G (gw w1) system_user_check_sql = (Raise e, s2))))
      \/ (exists c w1 s2 e s3,
            count_rows_safe G (fun _ => None) "categories" "" (World tt []) = (Ok c, w1)
            /\ (c <= 0)%Z /\ G (gw w1) system_user_check_sql = (Ok [], s2)
            /\ noop_execute s2 system_user_sql = (Raise e, s3)
            /\ n = 0 /\ exec_log (snd r) = [system_user_sql])
      \/ (exists c w1 s2 s3,
            count_rows_safe G (fun _ => None) "categories" "" (World tt []) = (Ok c, w1)
            /\ (c <= 0)%Z /\ G (gw w1) system_user_check_sql = (Ok [], s2)
            /\ noop_execute s2 system_user_sql = (Ok tt, s3)
            /\ exec_log (snd r) = system_user_sql :: category_inserts)
      \/ (exists c w1 r0 rs s2,
            count_rows_safe G (fun _ => None) "categories" "" (World tt []) = (Ok c, w1)
            /\ (c <= 0)%Z /\ G (gw w1) system_user_check_sql = (Ok (r0 :: rs), s2)
            /\ exec_log (snd r) = category_inserts)).
Proof.
  intros G r.
  apply (seed_default_categories_log G noop_execute (fun _ => None)
           (World tt []) (snd r) (fst r)).
  vm_compute. reflexivity.
Defined.

(** A users table whose [password_hash] probe fails. *)
Lemma check_users_table_schema_consistent_witness :
  let r := check_users_table_schema
             (route_gateway password_probe_sql
                (Raise (PyExc "Exception" "no such column: password_hash")) (Ok []))
             (World tt []) in
  exists sc, fst r = Ok sc /\ exec_log (snd r) = []
  /\ sc_has_correct_schema sc = sc_has_email sc && sc_has_password_hash sc
  /\ sc_is_old_schema sc = sc_exists sc && negb (sc_has_correct_schema sc)
  /\ sc_needs_migration sc = sc_exists sc && negb (sc_has_correct_schema sc)
  /\ (sc_error sc <> None -> sc_exists sc = false).
Proof.
  intros r.
  apply (check_users_table_schema_consistent
           (route_gateway password_probe_sql
              (Raise (PyExc "Exception" "no such column: password_hash")) (Ok []))
           (World tt []) (snd r) (fst r)).
  vm_compute. reflexivity.
Defined.

Lemma migrate_users_table_log_witness :
  let r := migrate_users_table (const_gateway (Ok [])) noop_execute (World tt []) in
  exists b, fst r = Ok b
  /\ (exec_log (snd r) = ["DROP TABLE users"]
      \/ exec_log (snd r) = ["DROP TABLE users"; users_create_statement])
  /\ (b = true -> exec_log (snd r) = ["DROP TABLE users"; users_create_statement]).
Proof.
  intros r.
  apply (migrate_users_table_log (const_gateway (Ok [])) noop_execute (World tt [])
           (snd r) (fst r)).
  vm_compute. reflexivity.
Defined.

(** A store where no table exists yet: each CREATE statement is run once. *)
Lemma create_tables_inline_accounting_witness :
  let r := create_tables_inline
             (const_gateway (Raise (PyExc "Exception" "no such table"))) noop_execute
             (World tt []) in
  exists created skipped errors l, fst r = Ok (created, skipped, errors)
  /\ created + skipped + length errors = length table_statements
  /\ exec_log (snd r) = l
  /\ subseq l (map snd table_statements)
  /\ created <= length l <= length table_statements.
Proof.
  intros r.
  destruct (create_tables_inline_accounting
              (const_gateway (Raise (PyExc "Exception" "no such table"))) noop_execute
              (World tt []) (snd r) (fst r))
    as (c & s & errs & l & H1 & H2 & H3 & H4 & H5).
  - vm_compute. reflexivity.
  - exists c, s, errs, l. auto.
Defined.

Lemma create_tables_executes_schema_witness :
  let r := create_tables (const_gateway (Ok [])) noop_execute
             (Ok "CREATE TABLE t (id INT); INSERT INTO t (id) VALUES (1);")
             (World tt []) in
  exists cnt l, fst r = Ok cnt /\ exec_log (snd r) = l
  /\ (incl l (map snd table_statements)
      \/ exists content, @Ok string "CREATE TABLE t (id INT); INSERT INTO t (id) VALUES (1);"
                           = Ok content
         /\ Forall (fun st => In st (parse_sql_statements content)
                     /\ (starts_with "CREATE TABLE" (upper st) = true
                         \/ starts_with "INSERT INTO" (upper st) = true)) l).
Proof.
  intros r.
  apply (create_tables_executes_schema (const_gateway (Ok [])) noop_execute
           (Ok "CREATE TABLE t (id INT); INSERT INTO t (id) VALUES (1);")
           (World tt []) (snd r) (fst r)).
  vm_compute. reflexivity.
Defined.
